(** * terrabot: the guide parser and its time-based cache

    A shallow embedding of [parse_guide], [_extract_item_name],
    [fetch_wikitext] and [get_guide_data] of [bot.py], and the properties
    of the parsing and caching core proved about them; then of the
    functions around that core ([wiki_item_link], [get_guild_phase],
    [set_guild_phase], [find_member_class], [class_autocomplete], [/setup]
    and [/phase]) and of what they do with the index.

    Modelling choices.
    - A Python [str] is a list of Unicode code points ([N]); every
      function below is total on all of [list N], a superset of the valid
      strings.
    - A Python [dict] is an association list with unique keys kept in
      insertion order (the display order of the bot).
    - A statement that can raise is a computation in the [outcome] monad.
    - The event-loop clock returns a float; a clock reading is modelled as
      an exact rational, and the subtraction [now - GuideFetchedAt] is
      exact.
    - What the program takes from libraries without fixing it is a
      variable of the section [Bot]: [str.lower] outside ASCII,
      [json.dumps], the matcher of rapidfuzz, the iteration order of the
      set behind [CLASS_CHOICES]. *)

From Stdlib Require Import String Ascii NArith Bool Lia QArith Lqa List.
From Stdlib Require Import ZArith DecimalString DecimalZ DecimalPos Permutation.
Import ListNotations.

Local Open Scope N_scope.

(** ** Python strings *)

Module PyStr.

Definition char := N.
Definition str := list char.

(** An ASCII literal as a [str]. *)
Definition lit (s : string) : str :=
  List.map N_of_ascii (list_ascii_of_string s).

(** The code points for which [str.strip()] and the pattern [\s] of [re]
    treat a character as whitespace. *)
Definition isspace (c : char) : bool :=
  ((0x09 <=? c) && (c <=? 0x0D)) || ((0x1C <=? c) && (c <=? 0x1F))
  || (c =? 0x20) || (c =? 0x85) || (c =? 0xA0) || (c =? 0x1680)
  || ((0x2000 <=? c) && (c <=? 0x200A))
  || (c =? 0x2028) || (c =? 0x2029) || (c =? 0x202F) || (c =? 0x205F)
  || (c =? 0x3000).

(** The line boundaries of [str.splitlines()]. *)
Definition is_linebreak (c : char) : bool :=
  ((0x0A <=? c) && (c <=? 0x0D)) || ((0x1C <=? c) && (c <=? 0x1E))
  || (c =? 0x85) || (c =? 0x2028) || (c =? 0x2029).

Fixpoint str_eqb (a b : str) : bool :=
  match a, b with
  | [], [] => true
  | x :: a', y :: b' => (x =? y) && str_eqb a' b'
  | _, _ => false
  end.

(** [s.startswith(prefix)] *)
Fixpoint startswith (s prefix : str) {struct prefix} : bool :=
  match prefix, s with
  | [], _ => true
  | _ :: _, [] => false
  | p :: prefix', c :: s' => (c =? p) && startswith s' prefix'
  end.

Fixpoint lstrip_by (p : char -> bool) (s : str) : str :=
  match s with
  | [] => []
  | c :: s' => if p c then lstrip_by p s' else s
  end.

Definition rstrip_by (p : char -> bool) (s : str) : str :=
  rev (lstrip_by p (rev s)).

Definition strip_by (p : char -> bool) (s : str) : str :=
  rstrip_by p (lstrip_by p s).

Definition one_of (chars : str) (c : char) : bool :=
  existsb (N.eqb c) chars.

(** [s.strip()] *)
Definition strip (s : str) : str := strip_by isspace s.

(** [s.strip(chars)] *)
Definition strip_chars (s chars : str) : str := strip_by (one_of chars) s.

(** [s.lstrip(chars)] *)
Definition lstrip_chars (s chars : str) : str := lstrip_by (one_of chars) s.

(** [s.replace(old, new)] for a non-empty [old]: the occurrences are found
    from the left and do not overlap; [skip] counts the characters of an
    occurrence still to be dropped. *)
Fixpoint replace_from (skip : nat) (s old new : str) : str :=
  match s with
  | [] => []
  | c :: s' =>
      match skip with
      | S k => replace_from k s' old new
      | O =>
          if startswith s old
          then new ++ replace_from (length old - 1)%nat s' old new
          else c :: replace_from 0 s' old new
      end
  end.

Definition replace (s old new : str) : str := replace_from 0 s old new.

(** [s.splitlines()]: [cur] is the line being read, reversed.  A carriage
    return followed by a line feed is one boundary, and no empty line is
    produced after the last boundary. *)
Fixpoint splitlines_from (cur : str) (s : str) : list str :=
  match s with
  | [] => match cur with [] => [] | _ :: _ => [rev cur] end
  | c :: s' =>
      if is_linebreak c then
        rev cur ::
          match s' with
          | c' :: s'' =>
              if (c =? 0x0D) && (c' =? 0x0A)
              then splitlines_from [] s''
              else splitlines_from [] s'
          | [] => splitlines_from [] s'
          end
      else splitlines_from (c :: cur) s'
  end.

Definition splitlines (s : str) : list str := splitlines_from [] s.

End PyStr.
Export PyStr.

(** ** Python dictionaries, in insertion order *)

Module PyDict.

Definition dict (V : Type) := list (str * V).

Definition keys {V} (d : dict V) : list str := List.map fst d.

(** [d.get(k)] *)
Fixpoint get {V} (d : dict V) (k : str) : option V :=
  match d with
  | [] => None
  | (k', v) :: d' => if str_eqb k' k then Some v else get d' k
  end.

(** [d.setdefault(k, v)], for its effect on [d]: an absent key is added at
    the end, a present key keeps its value and its place. *)
Definition setdefault {V} (d : dict V) (k : str) (v : V) : dict V :=
  match get d k with
  | Some _ => d
  | None => d ++ [(k, v)]
  end.

(** The dict after the object stored under [k] was mutated into [v]: the
    key keeps its place. *)
Fixpoint set_item {V} (d : dict V) (k : str) (v : V) : dict V :=
  match d with
  | [] => [(k, v)]
  | (k', v') :: d' =>
      if str_eqb k' k then (k', v) :: d' else (k', v') :: set_item d' k v
  end.

End PyDict.
Export PyDict.

(** ** Exceptions *)

Inductive exn : Type :=
| KeyError (key : str)
| TypeError
| AttributeError
| ClientError.

Inductive outcome (A : Type) : Type :=
| Return (a : A)
| Raise (e : exn).
Arguments Return {A} a.
Arguments Raise {A} e.

Definition bind {A B} (c : outcome A) (k : A -> outcome B) : outcome B :=
  match c with
  | Return a => k a
  | Raise e => Raise e
  end.

Notation "x <- c ;; k" := (bind c (fun x => k))
  (at level 61, c at next level, right associativity).

(** [d[k]] *)
Definition getitem {V} (d : dict V) (k : str) : outcome V :=
  match get d k with
  | Some v => Return v
  | None => Raise (KeyError k)
  end.

(** ** Item names: the two regular expressions

    [ITEM_TEMPLATE_RE = \{\{\s*[iI]tem\|([^|}]+)] and
    [WIKI_LINK_RE = \[\[([^|\]]+)[^\]]*\]\]].  In both, every greedy
    repetition is followed by a character outside the repeated class (or by
    the end of the pattern), so giving characters back never turns a failed
    attempt into a match: the match at a position is the greedy one. *)

Fixpoint take_while (p : char -> bool) (s : str) : str :=
  match s with
  | [] => []
  | c :: s' => if p c then c :: take_while p s' else []
  end.

(** The rest of [s] after [prefix], when [s] starts with it. *)
Fixpoint after_prefix (s prefix : str) {struct prefix} : option str :=
  match prefix, s with
  | [], _ => Some s
  | _ :: _, [] => None
  | p :: prefix', c :: s' =>
      if c =? p then after_prefix s' prefix' else None
  end.

(** Group 1 of [ITEM_TEMPLATE_RE] matched at the start of [s]. *)
Definition item_template_at (s : str) : option str :=
  match after_prefix s (lit "{{") with
  | Some r =>
      match lstrip_by isspace r with
      | c :: r' =>
          if one_of (lit "iI") c then
            match after_prefix r' (lit "tem|") with
            | Some r'' =>
                match take_while (fun c => negb (one_of (lit "|}") c)) r'' with
                | [] => None
                | g => Some g
                end
            | None => None
            end
          else None
      | [] => None
      end
  | None => None
  end.

(** Group 1 of [WIKI_LINK_RE] matched at the start of [s]. *)
Definition wiki_link_at (s : str) : option str :=
  match after_prefix s (lit "[[") with
  | Some r =>
      match take_while (fun c => negb (one_of (lit "|]") c)) r with
      | [] => None
      | g =>
          if startswith (lstrip_by (fun c => negb (one_of (lit "]") c)) r)
                        (lit "]]")
          then Some g else None
      end
  | None => None
  end.

(** [pattern.search(s)]: the match at the leftmost position that has one. *)
Fixpoint search (at_start : str -> option str) (s : str) : option str :=
  match at_start s with
  | Some g => Some g
  | None =>
      match s with
      | [] => None
      | _ :: s' => search at_start s'
      end
  end.

Definition ITEM_TEMPLATE_RE : str -> option str := search item_template_at.
Definition WIKI_LINK_RE : str -> option str := search wiki_link_at.

Definition _extract_item_name (line : str) : option str :=
  match ITEM_TEMPLATE_RE line with
  | Some g => Some (strip g)
  | None =>
      match WIKI_LINK_RE line with
      | Some g => Some (strip g)
      | None => None
      end
  end.

(** ** parse_guide *)

Definition Items := list str.
Definition Categories := dict Items.
Definition Classes := dict Categories.
Definition Index := dict Classes.

(** The local variables of [parse_guide]. *)
Record locals : Type := Locals {
  result : Index;
  phase : option str;
  terraria_class : option str;
  category : option str
}.

(** The value of [x] when [if x:] holds: [x] is neither [None] nor empty. *)
Definition truthy (x : option str) : option str :=
  match x with
  | Some ((_ :: _) as s) => Some s
  | _ => None
  end.

(** [result[p].setdefault(c, {})] *)
Definition register_class (r : Index) (p c : str) : outcome Index :=
  classes <- getitem r p ;;
  Return (set_item r p (setdefault classes c [])).

(** [result[p][c].setdefault(k, [])] *)
Definition register_category (r : Index) (p c k : str) : outcome Index :=
  classes <- getitem r p ;;
  cats <- getitem classes c ;;
  Return (set_item r p (set_item classes c (setdefault cats k []))).

(** [result[p][c][k].append(name)] *)
Definition append_item (r : Index) (p c k name : str) : outcome Index :=
  classes <- getitem r p ;;
  cats <- getitem classes c ;;
  items <- getitem cats k ;;
  Return (set_item r p (set_item classes c (set_item cats k (items ++ [name])))).

(** One iteration of the [for raw_line in ...] loop. *)
Definition loop_body (st : locals) (raw_line : str) : outcome locals :=
  let line := strip raw_line in
  if startswith line (lit "==") && negb (startswith line (lit "===")) then
    let phase' :=
      strip (replace (strip_chars line (lit "= ")) (lit "&nbsp;") (lit " ")) in
    Return (Locals (setdefault (result st) phase' []) (Some phase') None None)
  else if startswith line (lit "===") then
    let terraria_class' := strip (strip_chars line (lit "= ")) in
    r <- match truthy (phase st) with
         | Some p => register_class (result st) p terraria_class'
         | None => Return (result st)
         end ;;
    Return (Locals r (phase st) (Some terraria_class') None)
  else if startswith line (lit ";") then
    let category' := strip (lstrip_chars line (lit ";")) in
    r <- match truthy (phase st), truthy (terraria_class st) with
         | Some p, Some c => register_category (result st) p c category'
         | _, _ => Return (result st)
         end ;;
    Return (Locals r (phase st) (terraria_class st) (Some category'))
  else
    match startswith line (lit "*"),
          truthy (phase st), truthy (terraria_class st), truthy (category st)
    with
    | true, Some p, Some c, Some k =>
        match truthy (_extract_item_name line) with
        | Some name =>
            r <- append_item (result st) p c k name ;;
            Return (Locals r (phase st) (terraria_class st) (category st))
        | None => Return st
        end
    | _, _, _, _ => Return st
    end.

(** The loop over the lines. *)
Fixpoint run (st : locals) (lines : list str) : outcome locals :=
  match lines with
  | [] => Return st
  | raw_line :: rest => st' <- loop_body st raw_line ;; run st' rest
  end.

Definition initial : locals := Locals [] None None None.

Definition parse_lines (lines : list str) : outcome Index :=
  st <- run initial lines ;; Return (result st).

Definition parse_guide (wikitext : str) : outcome Index :=
  parse_lines (splitlines wikitext).

(** Line feed, for writing multi-line inputs. *)
Definition nl : str := [0x0A].


(** ** fetch_wikitext and get_guide_data *)

(** A decoded JSON document, as [resp.json()] returns it. *)
#[warning="-register-all"] Inductive json : Type :=
| JNull
| JBool (b : bool)
| JNumber (q : Q)
| JString (s : str)
| JArray (elems : list json)
| JObject (members : dict json).

(** [data[key]] for a string key: only a dict can be indexed by one. *)
Definition subscript (data : json) (key : str) : outcome json :=
  match data with
  | JObject members => getitem members key
  | _ => Raise TypeError
  end.

(** [parse_guide(text)] on a value that came out of the JSON document: a
    value that is not a string has no [splitlines]. *)
Definition parse_guide_of (text : json) : outcome Index :=
  match text with
  | JString s => parse_guide s
  | _ => Raise AttributeError
  end.

Definition CACHE_TTL : Q := inject_Z (60 * 60).

Definition Qltb (a b : Q) : bool := negb (Qle_bool b a).

(** The two module globals, and the number of requests sent to the wiki so
    far. *)
Record world : Type := World {
  GuideCache : Index;
  GuideFetchedAt : option Q;
  requests : nat
}.

(** The state at start-up. *)
Definition startup : world := World [] None 0.

(** [GuideCache and GuideFetchedAt and now - GuideFetchedAt < CACHE_TTL].
    The difference is the exact one; the float difference of the source is
    its rounding, which can only decide the test otherwise when the exact
    difference is within one rounding step of [CACHE_TTL]. *)
Definition cache_is_fresh (w : world) (now : Q) : bool :=
  match GuideCache w, GuideFetchedAt w with
  | _ :: _, Some fetched_at =>
      negb (Qeq_bool fetched_at 0) && Qltb (now - fetched_at) CACHE_TTL
  | _, _ => false
  end.

Section Provider.

(** The wiki: what the [n]-th request of the process gets, either the
    decoded body or the exception raised by the session. *)
Variable wiki : nat -> outcome json.

Definition fetch_wikitext (w : world) : outcome json * world :=
  let w' := World (GuideCache w) (GuideFetchedAt w) (S (requests w)) in
  (data <- wiki (requests w) ;;
   parsed <- subscript data (lit "parse") ;;
   wikitext <- subscript parsed (lit "wikitext") ;;
   subscript wikitext (lit "*"),
   w').

Definition get_guide_data (now : Q) (w : world) : outcome Index * world :=
  if cache_is_fresh w now then (Return (GuideCache w), w)
  else
    let (text, w1) := fetch_wikitext w in
    match text <- text ;; parse_guide_of text with
    | Return idx => (Return idx, World idx (Some now) (requests w1))
    | Raise e => (Raise e, w1)
    end.

End Provider.

(** The body the wiki sends for a page whose wikitext is [text]. *)
Definition page (text : str) : json :=
  JObject [(lit "parse", JObject [(lit "wikitext", JObject [(lit "*", JString text)])])].

(** ** The branch a line takes

    The loop body tests the stripped line four times in a row; [classify]
    names the test that succeeds, with the text the branch extracts. *)

Inductive line_kind : Type :=
| PhaseHeading (text : str)
| ClassHeading (text : str)
| CategoryMarker (text : str)
| Bullet (line : str)
| Other.

Definition classify (raw_line : str) : line_kind :=
  let line := strip raw_line in
  if startswith line (lit "==") && negb (startswith line (lit "===")) then
    PhaseHeading
      (strip (replace (strip_chars line (lit "= ")) (lit "&nbsp;") (lit " ")))
  else if startswith line (lit "===") then
    ClassHeading (strip (strip_chars line (lit "= ")))
  else if startswith line (lit ";") then
    CategoryMarker (strip (lstrip_chars line (lit ";")))
  else if startswith line (lit "*") then Bullet line
  else Other.

(** The effect of each branch on the local variables. *)
Definition on_phase_heading (st : locals) (text : str) : outcome locals :=
  Return (Locals (setdefault (result st) text []) (Some text) None None).

Definition on_class_heading (st : locals) (text : str) : outcome locals :=
  r <- match truthy (phase st) with
       | Some p => register_class (result st) p text
       | None => Return (result st)
       end ;;
  Return (Locals r (phase st) (Some text) None).

Definition on_category_marker (st : locals) (text : str) : outcome locals :=
  r <- match truthy (phase st), truthy (terraria_class st) with
       | Some p, Some c => register_category (result st) p c text
       | _, _ => Return (result st)
       end ;;
  Return (Locals r (phase st) (terraria_class st) (Some text)).

Definition on_bullet (st : locals) (line : str) : outcome locals :=
  match truthy (phase st), truthy (terraria_class st), truthy (category st) with
  | Some p, Some c, Some k =>
      match truthy (_extract_item_name line) with
      | Some name =>
          r <- append_item (result st) p c k name ;;
          Return (Locals r (phase st) (terraria_class st) (category st))
      | None => Return st
      end
  | _, _, _ => Return st
  end.

Definition on_line (st : locals) (kind : line_kind) : outcome locals :=
  match kind with
  | PhaseHeading text => on_phase_heading st text
  | ClassHeading text => on_class_heading st text
  | CategoryMarker text => on_category_marker st text
  | Bullet line => on_bullet st line
  | Other => Return st
  end.

(** ** Kinds of lines, and states the scan cannot tell apart *)

Definition is_phase_heading (raw_line : str) : bool :=
  startswith (strip raw_line) (lit "==")
  && negb (startswith (strip raw_line) (lit "===")).

Definition is_category_marker (raw_line : str) : bool :=
  startswith (strip raw_line) (lit ";").

Definition is_bullet (raw_line : str) : bool :=
  startswith (strip raw_line) (lit "*").

(** Two states with the same index and phase, that differ at most in a
    part of the cursor that no branch reads: the class while the phase is
    [None] or empty, the category while the phase or the class is. *)
Definition alike (s1 s2 : locals) : Prop :=
  result s1 = result s2 /\ phase s1 = phase s2 /\
  (truthy (phase s1) = None \/
   (terraria_class s1 = terraria_class s2 /\
    (truthy (terraria_class s1) = None \/ category s1 = category s2))).

Definition alike_outcome (o1 o2 : outcome locals) : Prop :=
  match o1, o2 with
  | Return s1, Return s2 => alike s1 s2
  | Raise e1, Raise e2 => e1 = e2
  | _, _ => False
  end.

(** The names that a run of bullet lines appends: one per line from which
    a non-empty name is extracted, in line order. *)
Definition names_of (bullets : list str) : list str :=
  flat_map (fun raw_line =>
              match truthy (_extract_item_name (strip raw_line)) with
              | Some name => [name]
              | None => []
              end) bullets.

(** ** Registered keys, and indexes that only grow *)

Definition has_phase (r : Index) (p : str) : Prop := In p (keys r).

Definition has_class (r : Index) (p c : str) : Prop :=
  exists classes, get r p = Some classes /\ In c (keys classes).

Definition has_category (r : Index) (p c k : str) : Prop :=
  exists classes cats,
    get r p = Some classes /\ get classes c = Some cats /\ In k (keys cats).

(** Every key of [d] is a key of [d'], with a value related by [R]. *)
Definition dict_le {V} (R : V -> V -> Prop) (d d' : dict V) : Prop :=
  forall k v, get d k = Some v -> exists v', get d' k = Some v' /\ R v v'.

Definition same_or_more : Index -> Index -> Prop :=
  dict_le (dict_le (dict_le (fun _ _ : Items => True))).

(** ** Well-formed indexes and cursors *)

Definition unique_keys {V} (d : dict V) : Prop := NoDup (keys d).

Definition valid_classes (classes : Classes) : Prop :=
  unique_keys classes /\ Forall (fun kv => unique_keys (snd kv)) classes.

(** A structurally valid index: at each of the three levels the keys are
    pairwise distinct. *)
Definition valid_index (idx : Index) : Prop :=
  unique_keys idx /\ Forall (fun kv => valid_classes (snd kv)) idx.

(** The item list of [p -> c -> k], when all three keys are present. *)
Definition items_at (r : Index) (p c k : str) : option Items :=
  match get r p with
  | Some classes =>
      match get classes c with
      | Some cats => get cats k
      | None => None
      end
  | None => None
  end.

(** Every key that the loop body can look up through the cursor is present:
    a non-empty phase is a key of the index, the class (when the phase is
    non-empty) is a key under it, and the category (when phase and class
    are non-empty) is a key under the class. *)
Definition cursor_ok (st : locals) : Prop :=
  match truthy (phase st) with
  | None => True
  | Some p =>
      exists classes, get (result st) p = Some classes /\
        match terraria_class st with
        | None => True
        | Some c =>
            exists cats, get classes c = Some cats /\
              match c, category st with
              | _ :: _, Some k => exists items, get cats k = Some items
              | _, _ => True
              end
        end
  end.

Definition inv (st : locals) : Prop :=
  valid_index (result st) /\ cursor_ok st.

(** ** Sample inputs *)

(** A phase, a class under it and a category under the class. *)
Definition sample_context : list str :=
  [lit "== Phase A =="; lit "=== Ranged ==="; lit ";Weapons"].

(** The local variables after [sample_context]. *)
Definition sample_state : locals :=
  Locals [(lit "Phase A", [(lit "Ranged", [(lit "Weapons", [])])])]
         (Some (lit "Phase A")) (Some (lit "Ranged")) (Some (lit "Weapons")).

(** A wiki that cannot be reached, and one that serves [text]. *)
Definition wiki_down : nat -> outcome json := fun _ => Raise ClientError.

Definition wiki_serving (text : str) : nat -> outcome json :=
  fun _ => Return (page text).

(** A populated cache, fetched at time 100 by the first request. *)
Definition sample_world : world :=
  World (result sample_state) (Some (inject_Z 100)) 1.

(** ** What the index is built from *)

(** The texts of the phase heading lines, in line order. *)
Definition phase_texts (lines : list str) : list str :=
  flat_map (fun l => match classify l with
                     | PhaseHeading text => [text]
                     | _ => []
                     end) lines.

Definition add_key (ks : list str) (k : str) : list str :=
  if existsb (str_eqb k) ks then ks else ks ++ [k].

(** The distinct elements of a list, each at the place of its first
    occurrence. *)
Definition first_occurrences (l : list str) : list str :=
  fold_left add_key l [].

(** [d'] has the keys of [d] in the same order, then possibly more, and
    the values of the common keys are related by [R]. *)
Definition dict_ext {V} (R : V -> V -> Prop) (d d' : dict V) : Prop :=
  (exists more, keys d' = keys d ++ more) /\ dict_le R d d'.

(** The second index continues the first: nothing removed, nothing
    reordered, item lists extended at the end. *)
Definition grows : Index -> Index -> Prop :=
  dict_ext (dict_ext (dict_ext
    (fun a b : Items => exists more, b = a ++ more))).

Definition clean_name (s : str) : Prop := s <> [] /\ strip s = s.

Definition clean_categories (cats : Categories) : Prop :=
  Forall (fun kv => strip (fst kv) = fst kv /\ Forall clean_name (snd kv)) cats.

Definition clean_classes (classes : Classes) : Prop :=
  Forall (fun kv => strip (fst kv) = fst kv /\ clean_categories (snd kv)) classes.

(** No key has whitespace at either end, and no item is empty or has. *)
Definition clean_index (idx : Index) : Prop :=
  Forall (fun kv => strip (fst kv) = fst kv /\ clean_classes (snd kv)) idx.

(** A line that changes nothing wherever it stands: no heading, no
    category marker, and no bullet with an item name in it. *)
Definition inert (raw_line : str) : bool :=
  match classify raw_line with
  | Other => true
  | Bullet line =>
      match truthy (_extract_item_name line) with
      | None => true
      | Some _ => false
      end
  | _ => false
  end.

(** Every item name of the index satisfies [P]. *)
Definition all_items (P : str -> Prop) (idx : Index) : Prop :=
  Forall (fun pc : str * Classes =>
    Forall (fun cc : str * Categories =>
      Forall (fun kc : str * Items => Forall P (snd kc)) (snd cc)) (snd pc)) idx.

(** [name] is what [_extract_item_name] gives on a bullet line among
    [lines]. *)
Definition read_from (lines : list str) (name : str) : Prop :=
  exists raw_line,
    In raw_line lines /\ is_bullet raw_line = true /\
    truthy (_extract_item_name (strip raw_line)) = Some name.

(** ** wiki_item_link *)

Definition wiki_item_link (name : str) : str :=
  let url_name := replace name (lit " ") (lit "_") in
  lit "[" ++ name ++ lit "](https://terraria.wiki.gg/wiki/" ++ url_name ++ lit ")".

(** ** The phase of each guild *)

(** [str(n)] for an [int]. *)
Definition str_of_int (n : Z) : str :=
  lit (NilZero.string_of_int (Z.to_int n)).

(** [d.get(k, default)] *)
Definition get_default {V} (d : dict V) (k : str) (default : V) : V :=
  match get d k with
  | Some v => v
  | None => default
  end.

(** The global [GuildConfig], and the content of [botconfig.json] when the
    file exists. *)
Record settings : Type := Settings {
  GuildConfig : dict (dict str);
  CONFIG_FILE : option str
}.

(** The phase name used for a guild without a setting; its hyphen is the
    non-breaking one, U+2011. *)
Definition default_phase : str := lit "Pre" ++ [0x2011] ++ lit "Mech Bosses".

Definition get_guild_phase (s : settings) (guild_id : Z) : str :=
  get_default (get_default (GuildConfig s) (str_of_int guild_id) [])
              (lit "phase") default_phase.

(** ** Roles and classes *)

Definition ROLE_TO_SECTION : dict str :=
  [(lit "ranger", lit "Ranged");
   (lit "ranged", lit "Ranged");
   (lit "mage", lit "Mage");
   (lit "magic", lit "Mage");
   (lit "summoner", lit "Summoner");
   (lit "melee", lit "Melee")].

Definition is_ascii (c : char) : bool := c <? 128.

Definition ascii_lower (c : char) : char :=
  if (65 <=? c) && (c <=? 90) then c + 32 else c.

(** [sep.join(parts)] *)
Fixpoint join (sep : str) (parts : list str) : str :=
  match parts with
  | [] => []
  | part :: rest =>
      match rest with
      | [] => part
      | _ :: _ => part ++ sep ++ join sep rest
      end
  end.

(** What a command sends with [inter.response.send_message]: a text, or an
    embed with its title, colour, timestamp and fields (name, value,
    inline). *)
Inductive reply : Type :=
| Message (content : str) (ephemeral : bool)
| EmbedReply (title : str) (colour : N) (timestamp : Q)
             (fields : list (str * str * bool)).

Section Bot.

(** [str.lower()] on a string with a character outside ASCII: the Unicode
    case tables are not part of the program. *)
Variable unicode_lower : str -> str.

(** [json.dumps(..., indent=2)], from the standard library. *)
Variable json_dumps : dict (dict str) -> str.

(** [process.extractOne(query, choices, scorer=fuzz.QRatio)] of rapidfuzz:
    the best choice with its score and index, or [None]. *)
Variable extractOne : str -> list str -> option (str * Q * nat).

(** The four class names in the order in which the set literal of
    [CLASS_CHOICES] happens to be iterated. *)
Variable CLASS_CHOICES : list str.

Variable wiki : nat -> outcome json.

(** [s.lower()]: on an ASCII string it lowers the letters A to Z. *)
Definition lower (s : str) : str :=
  if forallb is_ascii s then List.map ascii_lower s else unicode_lower s.

Definition save_config (s : settings) : settings :=
  Settings (GuildConfig s) (Some (json_dumps (GuildConfig s))).

(** [GuildConfig.setdefault(str(guild_id), {})["phase"] = phase], then
    [save_config()]. *)
Definition set_guild_phase (guild_id : Z) (phase : str) (s : settings)
  : settings :=
  let key := str_of_int guild_id in
  let config := setdefault (GuildConfig s) key [] in
  let entry := get_default config key [] in
  save_config
    (Settings (set_item config key (set_item entry (lit "phase") phase))
              (CONFIG_FILE s)).

(** [roles] are the names of [member.roles], in their order. *)
Fixpoint find_member_class (roles : list str) : option str :=
  match roles with
  | [] => None
  | role :: rest =>
      match get ROLE_TO_SECTION (lower role) with
      | Some section => Some section
      | None => find_member_class rest
      end
  end.

(** The choices offered, each a [Choice(name=c, value=c)]. *)
Definition class_autocomplete (current : str) : list (str * str) :=
  let current := lower current in
  let choices :=
    filter (fun c => startswith (lower c) current) CLASS_CHOICES in
  List.map (fun c => (c, c)) choices.

Definition phase_get (s : settings) (guild_id : Z) : reply :=
  let phase := get_guild_phase s guild_id in
  Message ([0x1F50E] ++ lit "  Current phase: **" ++ phase ++ lit "**") true.

Definition phase_set (guild_id : Z) (phase : str) (now : Q)
    (s : settings) (w : world) : outcome reply * settings * world :=
  let (data, w1) := get_guide_data wiki now w in
  match data with
  | Raise e => (Raise e, s, w1)
  | Return data =>
      let phases := keys data in
      match extractOne phase phases with
      | None => (Raise TypeError, s, w1)
      | Some (best, score, _) =>
          if Qltb score (inject_Z 60) then
            (Return (Message ([0x274C] ++
                              lit "  Phase not recognised. Check spelling.")
                             true), s, w1)
          else
            let s1 := set_guild_phase guild_id best s in
            (Return (Message ([0x2705] ++ lit "  Phase set to **" ++ best
                              ++ lit "**") false), s1, w1)
      end
  end.

(** One field of the embed: the items of a category as a bulleted list of
    links. *)
Definition field_of (category : str) (items : Items) : str * str * bool :=
  (category,
   join nl (List.map (fun i => [0x2022] ++ lit " " ++ wiki_item_link i) items),
   false).

(** The loop over [class_data.items()]: a category without items gets no
    field. *)
Fixpoint fields_of (class_data : Categories) : list (str * str * bool) :=
  match class_data with
  | [] => []
  | (category, items) :: rest =>
      match items with
      | [] => fields_of rest
      | _ :: _ => field_of category items :: fields_of rest
      end
  end.

(** [/setup]: [roles] are the role names of the user, [now] the reading of
    the event-loop clock and [utcnow] the one of the wall clock. *)
Definition setup_cmd (guild_id : Z) (roles : list str)
    (terraria_class : option str) (now utcnow : Q)
    (s : settings) (w : world) : outcome reply * world :=
  let phase := get_guild_phase s guild_id in
  let class_name :=
    match truthy terraria_class with
    | Some c => Some c
    | None => find_member_class roles
    end in
  match class_name with
  | None =>
      (Return (Message
         ([0x274C] ++ lit "  Could not detect your class. Either:" ++ nl ++
          [0x2022] ++
          lit " give yourself a role called Ranger/Mage/Summoner/Melee **or**"
          ++ nl ++
          [0x2022] ++ lit " supply `/setup terraria_class:<class>`.")
         true), w)
  | Some class_name =>
      let (guide, w1) := get_guide_data wiki now w in
      match guide with
      | Raise e => (Raise e, w1)
      | Return guide =>
          match get guide phase with
          | None | Some [] =>
              (Return (Message
                 (lit "Phase data missing. Ask an admin to `/phase set` again.")
                 true), w1)
          | Some ((_ :: _) as phase_data) =>
              match get phase_data class_name with
              | None | Some [] =>
                  (Return (Message
                     (lit "No data for **" ++ class_name ++
                      lit "** in phase **" ++ phase ++ lit "**.")
                     true), w1)
              | Some ((_ :: _) as class_data) =>
                  (Return (EmbedReply
                     (phase ++ lit " " ++ [0x2013] ++ lit " " ++ class_name)
                     0x16a085 utcnow (fields_of class_data)), w1)
              end
          end
      end
  end.

End Bot.

(** * Properties *)

(** The scenario of the specification. *)
Example parse_guide_spec_scenario :
  parse_guide (lit "== Phase A ==" ++ nl ++ lit "=== Ranged ===" ++ nl ++
               lit ";Weapons" ++ nl ++ lit "* {{item|Sword}}" ++ nl ++
               lit "* [[Bow]]")
  = Return [(lit "Phase A",
             [(lit "Ranged", [(lit "Weapons", [lit "Sword"; lit "Bow"])])])].
Proof. vm_compute. reflexivity. Qed.

(** ** Strings *)

Lemma str_eqb_spec (a b : str) : reflect (a = b) (str_eqb a b).
Proof.
  revert b; induction a as [|x a IH]; intros [|y b]; simpl;
    try (constructor; congruence).
  destruct (N.eqb_spec x y) as [->|Hxy]; simpl.
  - destruct (IH b) as [->|Hab]; constructor; congruence.
  - constructor; congruence.
Qed.

Lemma str_eqb_refl (a : str) : str_eqb a a = true.
Proof. destruct (str_eqb_spec a a); congruence. Qed.

Lemma str_eqb_neq (a b : str) : a <> b -> str_eqb a b = false.
Proof. destruct (str_eqb_spec a b); congruence. Qed.

Lemma lstrip_by_app_all (p : char -> bool) (ws s : str) :
  forallb p ws = true -> lstrip_by p (ws ++ s) = lstrip_by p s.
Proof.
  induction ws as [|c ws IH]; simpl; [reflexivity|].
  intros H; apply andb_prop in H as [Hc Hws]. now rewrite Hc, IH.
Qed.

Lemma lstrip_by_all (p : char -> bool) (ws : str) :
  forallb p ws = true -> lstrip_by p ws = [].
Proof.
  intros H. rewrite <- (app_nil_r ws), lstrip_by_app_all by assumption.
  reflexivity.
Qed.

Lemma lstrip_by_app (p : char -> bool) (s t : str) :
  lstrip_by p (s ++ t) =
  if forallb p s then lstrip_by p t else lstrip_by p s ++ t.
Proof.
  induction s as [|c s IH]; simpl; [reflexivity|].
  destruct (p c); simpl; [exact IH | reflexivity].
Qed.

Lemma rstrip_by_app_all (p : char -> bool) (s ws : str) :
  forallb p ws = true -> rstrip_by p (s ++ ws) = rstrip_by p s.
Proof.
  intros H. unfold rstrip_by. rewrite rev_app_distr, lstrip_by_app_all; auto.
  rewrite forallb_forall in *. intros c Hc. apply H, in_rev, Hc.
Qed.

Lemma rstrip_by_all (p : char -> bool) (ws : str) :
  forallb p ws = true -> rstrip_by p ws = [].
Proof.
  intros H. change ws with ([] ++ ws). now rewrite rstrip_by_app_all.
Qed.

(** Whitespace around a line does not change what [strip] returns. *)
Lemma strip_padding (ws1 s ws2 : str) :
  forallb isspace ws1 = true -> forallb isspace ws2 = true ->
  strip (ws1 ++ s ++ ws2) = strip s.
Proof.
  intros H1 H2. unfold strip, strip_by.
  rewrite lstrip_by_app_all by assumption.
  rewrite lstrip_by_app. destruct (forallb isspace s) eqn:Hs.
  - rewrite (lstrip_by_all _ _ H2), (lstrip_by_all _ _ Hs). reflexivity.
  - now rewrite rstrip_by_app_all.
Qed.

(** ** Dictionaries *)

Section DictFacts.

Context {V : Type}.
Implicit Types (d : dict V) (k : str) (v : V).

Lemma get_app d1 d2 k :
  get (d1 ++ d2) k = match get d1 k with Some v => Some v | None => get d2 k end.
Proof.
  induction d1 as [|[k' v'] d1 IH]; simpl; [reflexivity|].
  destruct (str_eqb k' k); [reflexivity | exact IH].
Qed.

Lemma get_None_keys d k : get d k = None <-> ~ In k (keys d).
Proof.
  induction d as [|[k' v'] d IH]; simpl; [tauto|].
  destruct (str_eqb_spec k' k) as [->|Hk].
  - split; [discriminate | intros H; exfalso; apply H; now left].
  - rewrite IH. tauto.
Qed.

Lemma get_Some_keys d k v : get d k = Some v -> In k (keys d).
Proof.
  intros H. destruct (in_dec (list_eq_dec N.eq_dec) k (keys d)) as [Hin|Hout]; auto.
  apply get_None_keys in Hout. congruence.
Qed.

Lemma keys_get d k : In k (keys d) -> exists v, get d k = Some v.
Proof.
  intros H. destruct (get d k) as [v|] eqn:E; [now exists v|].
  apply get_None_keys in E. contradiction.
Qed.

Lemma get_In d k v : get d k = Some v -> In (k, v) d.
Proof.
  induction d as [|[k' v'] d IH]; simpl; [discriminate|].
  destruct (str_eqb_spec k' k) as [->|Hk]; intros H.
  - left. congruence.
  - right. auto.
Qed.

Lemma get_setdefault_same d k v :
  get (setdefault d k v) k = Some (match get d k with Some v' => v' | None => v end).
Proof.
  unfold setdefault. destruct (get d k) as [v'|] eqn:E; [exact E|].
  rewrite get_app, E. simpl. now rewrite str_eqb_refl.
Qed.

Lemma get_setdefault_other d k v k' :
  k <> k' -> get (setdefault d k v) k' = get d k'.
Proof.
  intros Hk. unfold setdefault. destruct (get d k); [reflexivity|].
  rewrite get_app. simpl. rewrite (str_eqb_neq _ _ Hk). now destruct (get d k').
Qed.

Lemma get_setdefault_keep d k v k' v' :
  get d k' = Some v' -> get (setdefault d k v) k' = Some v'.
Proof.
  intros H. unfold setdefault. destruct (get d k); [exact H|].
  now rewrite get_app, H.
Qed.

Lemma keys_setdefault d k v :
  keys (setdefault d k v) =
  match get d k with Some _ => keys d | None => keys d ++ [k] end.
Proof.
  unfold setdefault, keys. destruct (get d k); [reflexivity|].
  now rewrite map_app.
Qed.

Lemma get_set_item_same d k v : get (set_item d k v) k = Some v.
Proof.
  induction d as [|[k' v'] d IH]; simpl.
  - now rewrite str_eqb_refl.
  - destruct (str_eqb k' k) eqn:E; simpl; rewrite E; [reflexivity | exact IH].
Qed.

Lemma get_set_item_other d k v k' :
  k <> k' -> get (set_item d k v) k' = get d k'.
Proof.
  intros Hk. induction d as [|[k0 v0] d IH]; simpl.
  - now rewrite (str_eqb_neq _ _ Hk).
  - destruct (str_eqb_spec k0 k) as [->|Hk0]; simpl.
    + now rewrite (str_eqb_neq _ _ Hk).
    + now rewrite IH.
Qed.

Lemma keys_set_item d k v v0 :
  get d k = Some v0 -> keys (set_item d k v) = keys d.
Proof.
  induction d as [|[k' v'] d IH]; simpl; [discriminate|].
  destruct (str_eqb_spec k' k) as [->|Hk]; simpl; [reflexivity|].
  intros H. now rewrite (IH H).
Qed.

Lemma Forall_set_item (P : str * V -> Prop) d k v :
  Forall P d -> P (k, v) -> Forall P (set_item d k v).
Proof.
  intros Hd Hv. induction Hd as [|[k' v'] d Hx Hd IH]; simpl.
  - now constructor.
  - destruct (str_eqb_spec k' k) as [->|Hk]; constructor; auto.
Qed.

Lemma Forall_setdefault (P : str * V -> Prop) d k v :
  Forall P d -> P (k, v) -> Forall P (setdefault d k v).
Proof.
  intros Hd Hv. unfold setdefault. destruct (get d k); [exact Hd|].
  apply Forall_app. split; [exact Hd | now constructor].
Qed.

Lemma NoDup_keys_setdefault d k v :
  NoDup (keys d) -> NoDup (keys (setdefault d k v)).
Proof.
  intros Hd. rewrite keys_setdefault. destruct (get d k) eqn:E; [exact Hd|].
  apply get_None_keys in E.
  apply NoDup_rev in Hd. rewrite <- (rev_involutive (keys d ++ [k])).
  apply NoDup_rev. rewrite rev_app_distr. simpl. constructor; [|exact Hd].
  now rewrite <- in_rev.
Qed.

End DictFacts.

(** ** The loop invariant of parse_guide *)

Lemma truthy_Some (x : option str) (s : str) :
  truthy x = Some s -> x = Some s /\ s <> [].
Proof.
  destruct x as [[|c t]|]; simpl; try discriminate.
  intros [= <-]. split; [reflexivity | discriminate].
Qed.

Lemma truthy_None (x : option str) :
  truthy x = None -> x = None \/ x = Some [].
Proof. destruct x as [[|c t]|]; simpl; auto; discriminate. Qed.

Lemma valid_classes_nil : valid_classes [].
Proof. split; constructor. Qed.

Lemma valid_index_get (r : Index) p classes :
  valid_index r -> get r p = Some classes -> valid_classes classes.
Proof.
  intros [_ HF] Hg. rewrite Forall_forall in HF.
  exact (HF _ (get_In _ _ _ Hg)).
Qed.

Lemma valid_classes_get (classes : Classes) c cats :
  valid_classes classes -> get classes c = Some cats -> unique_keys cats.
Proof.
  intros [_ HF] Hg. rewrite Forall_forall in HF.
  exact (HF _ (get_In _ _ _ Hg)).
Qed.

Lemma valid_index_setdefault (r : Index) p :
  valid_index r -> valid_index (setdefault r p []).
Proof.
  intros [Hu HF]. split.
  - now apply NoDup_keys_setdefault.
  - apply Forall_setdefault; [exact HF | exact valid_classes_nil].
Qed.

Lemma valid_index_set_item (r : Index) p classes classes' :
  valid_index r -> get r p = Some classes -> valid_classes classes' ->
  valid_index (set_item r p classes').
Proof.
  intros [Hu HF] Hg Hc. split.
  - unfold unique_keys. now rewrite (keys_set_item _ _ _ _ Hg).
  - now apply Forall_set_item.
Qed.

Lemma valid_classes_setdefault (classes : Classes) c :
  valid_classes classes -> valid_classes (setdefault classes c []).
Proof.
  intros [Hu HF]. split.
  - now apply NoDup_keys_setdefault.
  - apply Forall_setdefault; [exact HF | constructor].
Qed.

Lemma valid_classes_set_item (classes : Classes) c cats cats' :
  valid_classes classes -> get classes c = Some cats -> unique_keys cats' ->
  valid_classes (set_item classes c cats').
Proof.
  intros [Hu HF] Hg Hc. split.
  - unfold unique_keys. now rewrite (keys_set_item _ _ _ _ Hg).
  - now apply Forall_set_item.
Qed.

Lemma unique_keys_setdefault {V} (d : dict V) k v :
  unique_keys d -> unique_keys (setdefault d k v).
Proof. apply NoDup_keys_setdefault. Qed.

Lemma unique_keys_set_item {V} (d : dict V) k v v0 :
  unique_keys d -> get d k = Some v0 -> unique_keys (set_item d k v).
Proof. intros Hu Hg. unfold unique_keys. now rewrite (keys_set_item _ _ _ _ Hg). Qed.

(** What the cursor invariant gives when all three cursor parts are
    non-empty: the three lookups of the item branch succeed. *)
Lemma cursor_ok_active st p c k :
  cursor_ok st ->
  truthy (phase st) = Some p -> truthy (terraria_class st) = Some c ->
  truthy (category st) = Some k ->
  exists classes cats items,
    get (result st) p = Some classes /\ get classes c = Some cats /\
    get cats k = Some items.
Proof.
  unfold cursor_ok. intros H Hp Hc Hk. rewrite Hp in H.
  destruct H as (classes & Hg & H).
  apply truthy_Some in Hc as [Hc Hc0]. apply truthy_Some in Hk as [Hk _].
  rewrite Hc in H. destruct H as (cats & Hg' & H).
  destruct c as [|x c]; [congruence|]. rewrite Hk in H.
  destruct H as (items & Hg''). now exists classes, cats, items.
Qed.

Lemma cursor_ok_class st p c :
  cursor_ok st ->
  truthy (phase st) = Some p -> truthy (terraria_class st) = Some c ->
  exists classes cats,
    get (result st) p = Some classes /\ get classes c = Some cats.
Proof.
  unfold cursor_ok. intros H Hp Hc. rewrite Hp in H.
  destruct H as (classes & Hg & H).
  apply truthy_Some in Hc as [Hc Hc0].
  rewrite Hc in H. destruct H as (cats & Hg' & H).
  now exists classes, cats.
Qed.

Lemma cursor_ok_phase st p :
  cursor_ok st -> truthy (phase st) = Some p ->
  exists classes, get (result st) p = Some classes.
Proof.
  unfold cursor_ok. intros H Hp. rewrite Hp in H.
  destruct H as (classes & Hg & H). now exists classes.
Qed.

(** The loop body does what the branch of its line does. *)
Lemma loop_body_classify (st : locals) (raw_line : str) :
  loop_body st raw_line = on_line st (classify raw_line).
Proof.
  unfold loop_body, classify.
  destruct (startswith (strip raw_line) (lit "==")
            && negb (startswith (strip raw_line) (lit "==="))); [reflexivity|].
  destruct (startswith (strip raw_line) (lit "===")); [reflexivity|].
  destruct (startswith (strip raw_line) (lit ";")); [reflexivity|].
  destruct (startswith (strip raw_line) (lit "*")); simpl.
  - unfold on_bullet. destruct st as [r p c k]; simpl. reflexivity.
  - now destruct (truthy (phase st)), (truthy (terraria_class st)),
      (truthy (category st)).
Qed.

Lemma register_class_ok (r : Index) p c classes :
  get r p = Some classes ->
  register_class r p c = Return (set_item r p (setdefault classes c [])).
Proof. intros H. unfold register_class, getitem. now rewrite H. Qed.

Lemma register_category_ok (r : Index) p c k classes cats :
  get r p = Some classes -> get classes c = Some cats ->
  register_category r p c k =
  Return (set_item r p (set_item classes c (setdefault cats k []))).
Proof.
  intros H1 H2. unfold register_category, getitem.
  rewrite H1; simpl. now rewrite H2.
Qed.

Lemma append_item_ok (r : Index) p c k name classes cats items :
  get r p = Some classes -> get classes c = Some cats ->
  get cats k = Some items ->
  append_item r p c k name =
  Return (set_item r p (set_item classes c (set_item cats k (items ++ [name])))).
Proof.
  intros H1 H2 H3. unfold append_item, getitem.
  rewrite H1; simpl. rewrite H2; simpl. now rewrite H3.
Qed.

Lemma on_phase_heading_inv st text :
  inv st -> exists st', on_phase_heading st text = Return st' /\ inv st'.
Proof.
  intros [Hv _]. eexists; split; [reflexivity|]. split; simpl.
  - now apply valid_index_setdefault.
  - unfold cursor_ok; simpl. destruct text as [|x text]; [exact I|].
    rewrite get_setdefault_same. eexists; split; [reflexivity | exact I].
Qed.

Lemma on_class_heading_inv st text :
  inv st -> exists st', on_class_heading st text = Return st' /\ inv st'.
Proof.
  intros [Hv Hc]. unfold on_class_heading.
  destruct (truthy (phase st)) as [p|] eqn:Hp.
  - destruct (cursor_ok_phase _ _ Hc Hp) as (classes & Hg).
    rewrite (register_class_ok _ _ text _ Hg). simpl.
    eexists; split; [reflexivity|]. split; simpl.
    + eapply valid_index_set_item; eauto.
      apply valid_classes_setdefault. eapply valid_index_get; eauto.
    + unfold cursor_ok; simpl. rewrite Hp, get_set_item_same.
      eexists; split; [reflexivity|]. rewrite get_setdefault_same.
      eexists; split; [reflexivity|]. now destruct text.
  - simpl. eexists; split; [reflexivity|]. split; [exact Hv|].
    unfold cursor_ok; simpl. now rewrite Hp.
Qed.

Lemma on_category_marker_inv st text :
  inv st -> exists st', on_category_marker st text = Return st' /\ inv st'.
Proof.
  intros [Hv Hc]. unfold on_category_marker.
  destruct (truthy (phase st)) as [p|] eqn:Hp;
    [destruct (truthy (terraria_class st)) as [c|] eqn:Hcl|].
  - destruct (cursor_ok_class _ _ _ Hc Hp Hcl) as (classes & cats & Hg & Hg').
    rewrite (register_category_ok _ _ _ text _ _ Hg Hg'). simpl.
    eexists; split; [reflexivity|]. split; simpl.
    + eapply valid_index_set_item; eauto.
      eapply valid_classes_set_item; eauto.
      * eapply valid_index_get; eauto.
      * apply unique_keys_setdefault. eapply valid_classes_get; eauto.
        eapply valid_index_get; eauto.
    + unfold cursor_ok; simpl. rewrite Hp, get_set_item_same.
      eexists; split; [reflexivity|].
      apply truthy_Some in Hcl as [-> Hne]. rewrite get_set_item_same.
      eexists; split; [reflexivity|]. destruct c; [exact I|].
      rewrite get_setdefault_same. now eexists.
  - simpl. eexists; split; [reflexivity|]. split; [exact Hv|].
    unfold cursor_ok in *; simpl. rewrite Hp in *.
    destruct Hc as (classes & Hg & Hc). exists classes; split; [exact Hg|].
    destruct (terraria_class st) as [[|x c]|]; simpl in *; try discriminate; auto.
  - simpl. eexists; split; [reflexivity|]. split; [exact Hv|].
    unfold cursor_ok in *; simpl. now rewrite Hp in *.
Qed.

Lemma on_bullet_inv st line :
  inv st -> exists st', on_bullet st line = Return st' /\ inv st'.
Proof.
  intros [Hv Hc]. unfold on_bullet.
  destruct (truthy (phase st)) as [p|] eqn:Hp; [|now exists st].
  destruct (truthy (terraria_class st)) as [c|] eqn:Hcl; [|now exists st].
  destruct (truthy (category st)) as [k|] eqn:Hk; [|now exists st].
  destruct (truthy (_extract_item_name line)) as [name|]; [|now exists st].
  destruct (cursor_ok_active _ _ _ _ Hc Hp Hcl Hk)
    as (classes & cats & items & Hg & Hg' & Hg'').
  rewrite (append_item_ok _ _ _ _ name _ _ _ Hg Hg' Hg''). simpl.
  eexists; split; [reflexivity|]. split; simpl.
  - eapply valid_index_set_item; eauto.
    eapply valid_classes_set_item; eauto.
    + eapply valid_index_get; eauto.
    + eapply unique_keys_set_item; eauto. eapply valid_classes_get; eauto.
      eapply valid_index_get; eauto.
  - unfold cursor_ok; simpl. rewrite Hp, get_set_item_same.
    eexists; split; [reflexivity|].
    apply truthy_Some in Hcl as [-> Hne]. rewrite get_set_item_same.
    eexists; split; [reflexivity|]. destruct c; [exact I|].
    apply truthy_Some in Hk as [-> _]. rewrite get_set_item_same. now eexists.
Qed.

Lemma loop_body_inv st raw_line :
  inv st -> exists st', loop_body st raw_line = Return st' /\ inv st'.
Proof.
  intros H. rewrite loop_body_classify.
  destruct (classify raw_line); simpl.
  - now apply on_phase_heading_inv.
  - now apply on_class_heading_inv.
  - now apply on_category_marker_inv.
  - now apply on_bullet_inv.
  - now exists st.
Qed.

Lemma run_inv lines : forall st,
  inv st -> exists st', run st lines = Return st' /\ inv st'.
Proof.
  induction lines as [|l lines IH]; intros st H; simpl.
  - now exists st.
  - destruct (loop_body_inv _ l H) as (st1 & -> & H1). simpl. now apply IH.
Qed.

Lemma inv_initial : inv initial.
Proof. split; [split; constructor | exact I]. Qed.

(** C1. For every input string, [parse_guide] returns an index and raises
    nothing: no lookup of the scan misses its key, and the index returned
    has pairwise distinct keys at each of its three levels. *)
Theorem parse_guide_total (wikitext : str) :
  exists idx, parse_guide wikitext = Return idx /\ valid_index idx.
Proof.
  unfold parse_guide, parse_lines.
  destruct (run_inv (splitlines wikitext) _ inv_initial) as (st & -> & Hv & _).
  now exists (result st).
Qed.

(** ** Heading depth *)

Lemma on_class_heading_not_phase st text st' text' :
  on_class_heading st text <> on_phase_heading st' text'.
Proof.
  unfold on_class_heading, on_phase_heading.
  destruct (match truthy (phase st) with
            | Some p => register_class (result st) p text
            | None => Return (result st)
            end); simpl; congruence.
Qed.

Lemma loop_body_padding st ws1 raw_line ws2 :
  forallb isspace ws1 = true -> forallb isspace ws2 = true ->
  loop_body st (ws1 ++ raw_line ++ ws2) = loop_body st raw_line.
Proof.
  intros H1 H2. unfold loop_body. now rewrite (strip_padding _ _ _ H1 H2).
Qed.

(** C6. A line whose stripped text begins with [===] is handled as a class
    heading and never as a phase heading; a line that begins with [==] but
    not with [===] is handled as a phase heading and never as a class
    heading; and whitespace around the line changes neither. *)
Theorem heading_depth_precedence (st : locals) (raw_line : str) :
  let line := strip raw_line in
  (startswith line (lit "===") = true ->
     loop_body st raw_line
       = on_class_heading st (strip (strip_chars line (lit "= "))) /\
     forall st' text, loop_body st raw_line <> on_phase_heading st' text) /\
  (startswith line (lit "==") = true -> startswith line (lit "===") = false ->
     loop_body st raw_line
       = on_phase_heading st
           (strip (replace (strip_chars line (lit "= ")) (lit "&nbsp;") (lit " "))) /\
     forall st' text, loop_body st raw_line <> on_class_heading st' text) /\
  (forall ws1 ws2,
     forallb isspace ws1 = true -> forallb isspace ws2 = true ->
     loop_body st (ws1 ++ raw_line ++ ws2) = loop_body st raw_line).
Proof.
  intros line. split; [|split].
  - intros H3.
    assert (E : loop_body st raw_line
                = on_class_heading st (strip (strip_chars line (lit "= ")))).
    { unfold loop_body. fold line. rewrite H3.
      now rewrite andb_false_r. }
    split; [exact E|]. intros st' text. rewrite E.
    apply on_class_heading_not_phase.
  - intros H2 H3.
    assert (E : loop_body st raw_line
                = on_phase_heading st
                    (strip (replace (strip_chars line (lit "= "))
                                    (lit "&nbsp;") (lit " ")))).
    { unfold loop_body. fold line. now rewrite H2, H3. }
    split; [exact E|]. intros st' text. rewrite E. intros Heq.
    symmetry in Heq. revert Heq. apply on_class_heading_not_phase.
  - intros ws1 ws2. apply loop_body_padding.
Qed.

Lemma heading_depth_precedence_witness :
  loop_body initial (lit "  === Ranged ===")
    = on_class_heading initial (lit "Ranged") /\
  loop_body initial (lit "== Phase&nbsp;A ==  ")
    = on_phase_heading initial (lit "Phase A").
Proof.
  split.
  - exact (proj1 (proj1 (heading_depth_precedence initial
                           (lit "  === Ranged ===")) eq_refl)).
  - exact (proj1 (proj1 (proj2 (heading_depth_precedence initial
                                  (lit "== Phase&nbsp;A ==  ")))
                        eq_refl eq_refl)).
Defined.

(** ** Lines by their first character *)

Lemma classify_phase_heading raw_line :
  is_phase_heading raw_line = true ->
  exists text, classify raw_line = PhaseHeading text.
Proof.
  unfold is_phase_heading, classify. intros ->. now eexists.
Qed.

Lemma classify_not_phase_heading raw_line :
  is_phase_heading raw_line = false ->
  forall text, classify raw_line <> PhaseHeading text.
Proof.
  unfold is_phase_heading, classify. intros -> text.
  destruct (startswith (strip raw_line) (lit "==="));
    [discriminate|].
  destruct (startswith (strip raw_line) (lit ";")); [discriminate|].
  destruct (startswith (strip raw_line) (lit "*")); discriminate.
Qed.

Lemma startswith_cons (c p : char) (s : str) :
  startswith (c :: s) [p] = (c =? p).
Proof. simpl. now rewrite andb_true_r. Qed.

Lemma classify_category_marker raw_line :
  is_category_marker raw_line = true ->
  classify raw_line
  = CategoryMarker (strip (lstrip_chars (strip raw_line) (lit ";"))).
Proof.
  unfold is_category_marker, classify.
  destruct (strip raw_line) as [|c line]; [discriminate|].
  change (lit ";") with [59]. rewrite startswith_cons. intros Hc.
  apply N.eqb_eq in Hc. subst c. reflexivity.
Qed.

Lemma classify_bullet raw_line :
  is_bullet raw_line = true -> classify raw_line = Bullet (strip raw_line).
Proof.
  unfold is_bullet, classify.
  destruct (strip raw_line) as [|c line]; [discriminate|].
  change (lit "*") with [42]. rewrite startswith_cons. intros Hc.
  apply N.eqb_eq in Hc. subst c. reflexivity.
Qed.

(** ** The loop, piecewise *)

Lemma run_app (a b : list str) : forall st,
  run st (a ++ b) = (st' <- run st a ;; run st' b).
Proof.
  induction a as [|l a IH]; intros st; simpl; [reflexivity|].
  destruct (loop_body st l); simpl; [apply IH | reflexivity].
Qed.

Lemma run_reachable (pre : list str) (st : locals) :
  run initial pre = Return st -> inv st.
Proof.
  intros H. destruct (run_inv pre _ inv_initial) as (st' & H' & Hinv).
  congruence.
Qed.

Lemma run_from_inv (lines : list str) (st : locals) :
  inv st -> exists st', run st lines = Return st'.
Proof.
  intros H. destruct (run_inv lines _ H) as (st' & H' & _). now exists st'.
Qed.

(** ** Orphan context *)

Lemma alike_refl st : alike st st.
Proof. repeat split. right. split; [reflexivity | now right]. Qed.

Lemma alike_outcome_refl o : alike_outcome o o.
Proof. destruct o; simpl; [apply alike_refl | reflexivity]. Qed.

Lemma alike_on_line s1 s2 kind :
  alike s1 s2 -> alike_outcome (on_line s1 kind) (on_line s2 kind).
Proof.
  destruct s1 as [r1 p1 c1 k1], s2 as [r2 p2 c2 k2].
  intros (Hr & Hp & H); simpl in *. subst r2 p2.
  destruct kind as [text|text|text|line|]; simpl.
  - repeat split. right. split; [reflexivity | now right].
  - unfold on_class_heading; simpl.
    destruct (match truthy p1 with
              | Some p => register_class r1 p text
              | None => Return r1
              end); simpl; [|reflexivity].
    repeat split. right. split; [reflexivity | now right].
  - unfold on_category_marker; simpl.
    destruct (truthy p1) as [p|] eqn:Hp; simpl.
    + destruct H as [H|[Hc H]]; [discriminate|]. subst c2.
      destruct (truthy c1) as [c|] eqn:Hc; simpl.
      * destruct (register_category r1 p c text); simpl; [|reflexivity].
        repeat split. right. split; [reflexivity | now right].
      * repeat split. right. split; [reflexivity | now right].
    + destruct (truthy c1), (truthy c2); simpl; repeat split; now left.
  - unfold on_bullet; simpl.
    destruct (truthy p1) as [p|] eqn:Hp; simpl.
    + destruct H as [H|[Hc H]]; [discriminate|]. subst c2.
      destruct (truthy c1) as [c|] eqn:Hc; simpl.
      * destruct H as [H|H]; [discriminate|]. subst k2.
        apply alike_outcome_refl.
      * repeat split. right. split; [reflexivity | now left].
    + repeat split. now left.
  - repeat split. exact H.
Qed.

Lemma alike_run lines : forall s1 s2,
  alike s1 s2 -> alike_outcome (run s1 lines) (run s2 lines).
Proof.
  induction lines as [|l lines IH]; intros s1 s2 H; simpl; [exact H|].
  pose proof (alike_on_line _ _ (classify l) H) as Hl.
  rewrite <- !loop_body_classify in Hl.
  destruct (loop_body s1 l), (loop_body s2 l); simpl in *;
    try contradiction; auto.
Qed.

(** States that are alike end the scan with the same index. *)
Lemma alike_result lines s1 s2 :
  alike s1 s2 ->
  (st <- run s1 lines ;; Return (result st))
  = (st <- run s2 lines ;; Return (result st)).
Proof.
  intros H. pose proof (alike_run lines _ _ H) as Hr.
  destruct (run s1 lines), (run s2 lines); simpl in *;
    try contradiction; [|congruence].
  destruct Hr as (-> & _). reflexivity.
Qed.

(** Before the first phase heading nothing reaches the index. *)
Lemma run_without_phase pre :
  forallb (fun l => negb (is_phase_heading l)) pre = true ->
  forall st, result st = [] -> phase st = None ->
  exists st', run st pre = Return st' /\ result st' = [] /\ phase st' = None.
Proof.
  induction pre as [|l pre IH]; simpl; intros Hpre st Hr Hp.
  - now exists st.
  - apply andb_prop in Hpre as [Hl Hpre]. apply negb_true_iff in Hl.
    pose proof (classify_not_phase_heading _ Hl) as Hk.
    rewrite loop_body_classify.
    destruct st as [r p c k]; simpl in *; subst r p.
    destruct (classify l) as [text|text|text|line|]; simpl;
      try (now apply IH).
    now elim (Hk text).
Qed.

Lemma bullets_keep_cursor bullets : forall st,
  forallb is_bullet bullets = true ->
  truthy (phase st) = None \/ truthy (terraria_class st) = None ->
  run st bullets = Return st.
Proof.
  induction bullets as [|l bullets IH]; simpl; intros st Hb H; [reflexivity|].
  apply andb_prop in Hb as [Hl Hb].
  rewrite loop_body_classify, (classify_bullet _ Hl). simpl.
  unfold on_bullet.
  assert (E : match truthy (phase st), truthy (terraria_class st),
                    truthy (category st) with
              | Some p, Some c, Some k =>
                  match truthy (_extract_item_name (strip l)) with
                  | Some name =>
                      r <- append_item (result st) p c k name ;;
                      Return (Locals r (phase st) (terraria_class st) (category st))
                  | None => Return st
                  end
              | _, _, _ => Return st
              end = Return st).
  { destruct H as [-> | ->]; [reflexivity|].
    now destruct (truthy (phase st)). }
  rewrite E. simpl. now apply IH.
Qed.

(** C5. Lines that come before the first phase heading leave no trace: the
    index is the one of the text without them.  A category marker met while
    the phase or the class is missing, with the bullet lines under it, leaves
    no trace either. *)
Theorem orphan_suppression :
  (forall wikitext pre post,
     splitlines wikitext = pre ++ post ->
     forallb (fun l => negb (is_phase_heading l)) pre = true ->
     parse_guide wikitext = parse_lines post) /\
  (forall wikitext pre marker bullets post st,
     splitlines wikitext = pre ++ marker :: bullets ++ post ->
     run initial pre = Return st ->
     truthy (phase st) = None \/ truthy (terraria_class st) = None ->
     is_category_marker marker = true ->
     forallb is_bullet bullets = true ->
     parse_guide wikitext = parse_lines (pre ++ post)).
Proof.
  split.
  - intros wikitext pre post Hs Hpre. unfold parse_guide, parse_lines.
    rewrite Hs, run_app.
    destruct (run_without_phase pre Hpre initial eq_refl eq_refl)
      as (st & -> & Hr & Hp). simpl.
    apply alike_result. repeat split; simpl; auto.
    left. now rewrite Hp.
  - intros wikitext pre marker bullets post st Hs Hpre Horphan Hm Hb.
    unfold parse_guide, parse_lines.
    rewrite Hs, !run_app, Hpre. simpl.
    rewrite loop_body_classify, (classify_category_marker _ Hm). simpl.
    unfold on_category_marker.
    assert (E : match truthy (phase st), truthy (terraria_class st) with
                | Some p, Some c =>
                    register_category (result st) p c
                      (strip (lstrip_chars (strip marker) (lit ";")))
                | _, _ => Return (result st)
                end = Return (result st)).
    { destruct Horphan as [-> | ->]; [reflexivity|].
      now destruct (truthy (phase st)). }
    rewrite E. simpl. rewrite run_app, bullets_keep_cursor; auto. simpl.
    apply alike_result. repeat split; simpl.
    destruct Horphan as [H|H]; [now left|]. right. split; [reflexivity|now left].
Qed.

(** ** Keys are never removed *)

Section DictLe.

Context {V : Type} (R : V -> V -> Prop).
Hypothesis R_refl : forall v, R v v.
Hypothesis R_trans : forall a b c, R a b -> R b c -> R a c.

Lemma dict_le_refl (d : dict V) : dict_le R d d.
Proof. intros k v H. now exists v. Qed.

Lemma dict_le_trans (a b c : dict V) :
  dict_le R a b -> dict_le R b c -> dict_le R a c.
Proof.
  intros Hab Hbc k v H. destruct (Hab _ _ H) as (v1 & H1 & R1).
  destruct (Hbc _ _ H1) as (v2 & H2 & R2). exists v2. eauto.
Qed.

Lemma dict_le_setdefault (d : dict V) k v : dict_le R d (setdefault d k v).
Proof.
  intros k' v' H. exists v'. split; [|apply R_refl].
  now apply get_setdefault_keep.
Qed.

Lemma dict_le_set_item (d : dict V) k v0 v :
  get d k = Some v0 -> R v0 v -> dict_le R d (set_item d k v).
Proof.
  intros Hg Hr k' v' H. destruct (str_eqb_spec k k') as [<-|Hk].
  - exists v. rewrite get_set_item_same. split; congruence.
  - exists v'. rewrite get_set_item_other by assumption. auto.
Qed.

End DictLe.

Lemma dict_le_keys {V} (R : V -> V -> Prop) (d d' : dict V) k :
  dict_le R d d' -> In k (keys d) -> In k (keys d').
Proof.
  intros H Hin. destruct (keys_get _ _ Hin) as (v & Hg).
  destruct (H _ _ Hg) as (v' & Hg' & _). eapply get_Some_keys; eauto.
Qed.

Lemma cats_le_refl (cats : Categories) :
  dict_le (fun _ _ : Items => True) cats cats.
Proof. now apply dict_le_refl. Qed.

Lemma classes_le_refl (classes : Classes) :
  dict_le (dict_le (fun _ _ : Items => True)) classes classes.
Proof. apply dict_le_refl. exact cats_le_refl. Qed.

Lemma same_or_more_refl r : same_or_more r r.
Proof. apply dict_le_refl. exact classes_le_refl. Qed.

Lemma same_or_more_trans a b c :
  same_or_more a b -> same_or_more b c -> same_or_more a c.
Proof.
  apply dict_le_trans. intros x y z. apply dict_le_trans.
  intros x' y' z'. apply dict_le_trans. auto.
Qed.

Lemma register_class_more r p c r' :
  register_class r p c = Return r' -> same_or_more r r'.
Proof.
  unfold register_class, getitem.
  destruct (get r p) as [classes|] eqn:Hg; simpl; [|discriminate].
  intros [= <-]. apply dict_le_set_item with (v0 := classes).
  - exact classes_le_refl.
  - exact Hg.
  - apply dict_le_setdefault. exact cats_le_refl.
Qed.

Lemma register_category_more r p c k r' :
  register_category r p c k = Return r' -> same_or_more r r'.
Proof.
  unfold register_category, getitem.
  destruct (get r p) as [classes|] eqn:Hg; simpl; [|discriminate].
  destruct (get classes c) as [cats|] eqn:Hg'; simpl; [|discriminate].
  intros [= <-]. apply dict_le_set_item with (v0 := classes).
  - exact classes_le_refl.
  - exact Hg.
  - apply dict_le_set_item with (v0 := cats).
    + exact cats_le_refl.
    + exact Hg'.
    + apply dict_le_setdefault. auto.
Qed.

Lemma append_item_more r p c k name r' :
  append_item r p c k name = Return r' -> same_or_more r r'.
Proof.
  unfold append_item, getitem.
  destruct (get r p) as [classes|] eqn:Hg; simpl; [|discriminate].
  destruct (get classes c) as [cats|] eqn:Hg'; simpl; [|discriminate].
  destruct (get cats k) as [items|] eqn:Hg''; simpl; [|discriminate].
  intros [= <-]. apply dict_le_set_item with (v0 := classes).
  - exact classes_le_refl.
  - exact Hg.
  - apply dict_le_set_item with (v0 := cats).
    + exact cats_le_refl.
    + exact Hg'.
    + apply dict_le_set_item with (v0 := items); auto.
Qed.

Lemma on_line_more st kind st' :
  on_line st kind = Return st' -> same_or_more (result st) (result st').
Proof.
  destruct kind as [text|text|text|line|]; simpl.
  - intros [= <-]. simpl. apply dict_le_setdefault. exact classes_le_refl.
  - unfold on_class_heading.
    destruct (truthy (phase st)) as [p|].
    + destruct (register_class (result st) p text) as [r|] eqn:E; simpl;
        [|discriminate].
      intros [= <-]. simpl. eapply register_class_more; eauto.
    + simpl. intros [= <-]. apply same_or_more_refl.
  - unfold on_category_marker.
    destruct (truthy (phase st)) as [p|];
      [destruct (truthy (terraria_class st)) as [c|]|].
    + destruct (register_category (result st) p c text) as [r|] eqn:E; simpl;
        [|discriminate].
      intros [= <-]. simpl. eapply register_category_more; eauto.
    + simpl. intros [= <-]. apply same_or_more_refl.
    + simpl. intros [= <-]. apply same_or_more_refl.
  - unfold on_bullet.
    destruct (truthy (phase st)) as [p|];
      [destruct (truthy (terraria_class st)) as [c|];
       [destruct (truthy (category st)) as [k|];
        [destruct (truthy (_extract_item_name line)) as [name|]|]|]|];
      try (intros [= <-]; apply same_or_more_refl).
    destruct (append_item (result st) p c k name) as [r|] eqn:E; simpl;
      [|discriminate].
    intros [= <-]. simpl. eapply append_item_more; eauto.
  - intros [= <-]. apply same_or_more_refl.
Qed.

Lemma run_more lines : forall st st',
  run st lines = Return st' -> same_or_more (result st) (result st').
Proof.
  induction lines as [|l lines IH]; simpl; intros st st'.
  - intros [= <-]. apply same_or_more_refl.
  - destruct (loop_body st l) as [st1|] eqn:E; simpl; [|discriminate].
    intros H. rewrite loop_body_classify in E.
    eapply same_or_more_trans; [eapply on_line_more; eauto | eauto].
Qed.

Lemma has_phase_more r r' p :
  same_or_more r r' -> has_phase r p -> has_phase r' p.
Proof. apply dict_le_keys. Qed.

Lemma has_class_more r r' p c :
  same_or_more r r' -> has_class r p c -> has_class r' p c.
Proof.
  intros H (classes & Hg & Hin). destruct (H _ _ Hg) as (classes' & Hg' & Hle).
  exists classes'. split; [exact Hg'|]. eapply dict_le_keys; eauto.
Qed.

Lemma has_category_more r r' p c k :
  same_or_more r r' -> has_category r p c k -> has_category r' p c k.
Proof.
  intros H (classes & cats & Hg & Hgc & Hin).
  destruct (H _ _ Hg) as (classes' & Hg' & Hle).
  destruct (Hle _ _ Hgc) as (cats' & Hgc' & Hle').
  exists classes', cats'. repeat split; auto. eapply dict_le_keys; eauto.
Qed.

(** ** Headings register their text, empty or not *)

Lemma has_key_setdefault {V} (d : dict V) k v : In k (keys (setdefault d k v)).
Proof. eapply get_Some_keys. apply get_setdefault_same. Qed.

(** What a heading or category line registers in a state the scan can
    reach. *)
Lemma on_line_registers st kind :
  inv st ->
  exists st', on_line st kind = Return st' /\
    match kind with
    | PhaseHeading text => has_phase (result st') text
    | ClassHeading text =>
        forall p, truthy (phase st) = Some p -> has_class (result st') p text
    | CategoryMarker text =>
        forall p c, truthy (phase st) = Some p ->
                    truthy (terraria_class st) = Some c ->
                    has_category (result st') p c text
    | _ => True
    end.
Proof.
  intros Hinv.
  assert (Hex : exists st', on_line st kind = Return st').
  { pose proof (on_phase_heading_inv st) as H1.
    pose proof (on_class_heading_inv st) as H2.
    pose proof (on_category_marker_inv st) as H3.
    pose proof (on_bullet_inv st) as H4.
    destruct kind as [text|text|text|line|]; simpl;
      [destruct (H1 text Hinv) as (s & E & _)
      |destruct (H2 text Hinv) as (s & E & _)
      |destruct (H3 text Hinv) as (s & E & _)
      |destruct (H4 line Hinv) as (s & E & _)
      |exists st; reflexivity]; now exists s. }
  destruct Hex as (st' & E). exists st'. split; [exact E|].
  destruct Hinv as [Hv Hc].
  destruct kind as [text|text|text|line|]; simpl in *; try exact I.
  - injection E as <-. simpl. apply has_key_setdefault.
  - intros p Hp. unfold on_class_heading in E. rewrite Hp in E.
    destruct (cursor_ok_phase _ _ Hc Hp) as (classes & Hg).
    rewrite (register_class_ok _ _ text _ Hg) in E. simpl in E.
    injection E as <-. simpl.
    exists (setdefault classes text []). rewrite get_set_item_same.
    split; [reflexivity | apply has_key_setdefault].
  - intros p c Hp Hcl. unfold on_category_marker in E. rewrite Hp, Hcl in E.
    destruct (cursor_ok_class _ _ _ Hc Hp Hcl) as (classes & cats & Hg & Hg').
    rewrite (register_category_ok _ _ _ text _ _ Hg Hg') in E. simpl in E.
    injection E as <-. simpl.
    exists (set_item classes c (setdefault cats text [])),
           (setdefault cats text []).
    rewrite !get_set_item_same.
    repeat split. apply has_key_setdefault.
Qed.

(** C4, as the code has it.  A line whose extracted text is empty is not
    skipped: a phase heading registers the empty string as a key of the
    index, a class heading registers it under the current phase when that
    phase is non-empty, and a category line registers it under the current
    phase and class when both are non-empty. *)
Theorem empty_text_is_registered wikitext pre raw_line post st :
  splitlines wikitext = pre ++ raw_line :: post ->
  run initial pre = Return st ->
  exists idx, parse_guide wikitext = Return idx /\
    (classify raw_line = PhaseHeading [] -> has_phase idx []) /\
    (classify raw_line = ClassHeading [] ->
       forall p, truthy (phase st) = Some p -> has_class idx p []) /\
    (classify raw_line = CategoryMarker [] ->
       forall p c, truthy (phase st) = Some p ->
                   truthy (terraria_class st) = Some c ->
                   has_category idx p c []).
Proof.
  intros Hs Hpre. pose proof (run_reachable _ _ Hpre) as Hinv.
  destruct (on_line_registers st (classify raw_line) Hinv) as (st1 & E & Hreg).
  destruct (loop_body_inv st raw_line Hinv) as (st1' & E' & Hinv1).
  rewrite loop_body_classify, E in E'. injection E' as <-.
  destruct (run_from_inv post _ Hinv1) as (st2 & E2).
  pose proof (run_more _ _ _ E2) as Hmore.
  exists (result st2). split.
  - unfold parse_guide, parse_lines.
    rewrite Hs, run_app, Hpre. simpl.
    now rewrite loop_body_classify, E; simpl; rewrite E2.
  - repeat split.
    + intros Hk. rewrite Hk in Hreg. eapply has_phase_more; eauto.
    + intros Hk p Hp. rewrite Hk in Hreg. eapply has_class_more; eauto.
    + intros Hk p c Hp Hcl. rewrite Hk in Hreg.
      eapply has_category_more; eauto.
Qed.

Lemma empty_text_is_registered_witness :
  exists idx, parse_guide (lit "==") = Return idx /\
    (classify (lit "==") = PhaseHeading [] -> has_phase idx []) /\
    (classify (lit "==") = ClassHeading [] ->
       forall p, truthy (phase initial) = Some p -> has_class idx p []) /\
    (classify (lit "==") = CategoryMarker [] ->
       forall p c, truthy (phase initial) = Some p ->
                   truthy (terraria_class initial) = Some c ->
                   has_category idx p c []).
Proof.
  exact (empty_text_is_registered (lit "==") [] (lit "==") [] initial
           eq_refl eq_refl).
Defined.

(** C4 as stated fails: the heading [==] has an empty text and the index
    gets the empty string as a key; so do the class heading [===] under a
    phase and the category line [;] under a phase and a class. *)
Lemma empty_text_counterexample :
  classify (lit "==") = PhaseHeading [] /\
  parse_guide (lit "==") = Return [([], [])] /\
  has_phase [([], [])] [] /\
  classify (lit "===") = ClassHeading [] /\
  parse_guide (lit "== P ==" ++ nl ++ lit "===")
    = Return [(lit "P", [([], [])])] /\
  has_class [(lit "P", [([], [])])] (lit "P") [] /\
  classify (lit ";") = CategoryMarker [] /\
  parse_guide (lit "== P ==" ++ nl ++ lit "=== C ===" ++ nl ++ lit ";")
    = Return [(lit "P", [(lit "C", [([], [])])])] /\
  has_category [(lit "P", [(lit "C", [([], [])])])] (lit "P") (lit "C") [].
Proof.
  repeat split; try (vm_compute; reflexivity).
  - now left.
  - eexists. split; [reflexivity | now left].
  - do 2 eexists. repeat split; now left.
Qed.

(** ** Bullet lines under an active cursor *)

Lemma items_at_set_item (r : Index) p c k classes cats items :
  items_at (set_item r p (set_item classes c (set_item cats k items))) p c k
  = Some items.
Proof. unfold items_at. now rewrite !get_set_item_same. Qed.

Lemma items_at_active st p c k :
  cursor_ok st ->
  truthy (phase st) = Some p -> truthy (terraria_class st) = Some c ->
  truthy (category st) = Some k ->
  exists items, items_at (result st) p c k = Some items.
Proof.
  intros Hc Hp Hcl Hk.
  destruct (cursor_ok_active _ _ _ _ Hc Hp Hcl Hk)
    as (classes & cats & items & Hg & Hg' & Hg'').
  exists items. unfold items_at. now rewrite Hg, Hg'.
Qed.

(** A bullet line under an active phase, class and category appends the
    non-empty name extracted from it, or nothing; the cursor stays. *)
Lemma on_bullet_active st line p c k items :
  truthy (phase st) = Some p -> truthy (terraria_class st) = Some c ->
  truthy (category st) = Some k ->
  items_at (result st) p c k = Some items ->
  exists st',
    on_bullet st line = Return st' /\
    phase st' = phase st /\ terraria_class st' = terraria_class st /\
    category st' = category st /\
    items_at (result st') p c k
    = Some (items ++ match truthy (_extract_item_name line) with
                     | Some name => [name]
                     | None => []
                     end).
Proof.
  intros Hp Hcl Hk Hitems. unfold on_bullet. rewrite Hp, Hcl, Hk.
  destruct (truthy (_extract_item_name line)) as [name|].
  - unfold items_at in Hitems.
    destruct (get (result st) p) as [classes|] eqn:Hg; [|discriminate].
    destruct (get classes c) as [cats|] eqn:Hg'; [|discriminate].
    rewrite (append_item_ok _ _ _ _ name _ _ _ Hg Hg' Hitems). simpl.
    eexists; repeat split. simpl. apply items_at_set_item.
  - exists st. rewrite app_nil_r. now repeat split.
Qed.

Lemma bullets_append bullets : forall st p c k items,
  truthy (phase st) = Some p -> truthy (terraria_class st) = Some c ->
  truthy (category st) = Some k ->
  forallb is_bullet bullets = true ->
  items_at (result st) p c k = Some items ->
  exists st',
    run st bullets = Return st' /\
    phase st' = phase st /\ terraria_class st' = terraria_class st /\
    category st' = category st /\
    items_at (result st') p c k = Some (items ++ names_of bullets).
Proof.
  induction bullets as [|l bullets IH]; simpl;
    intros st p c k items Hp Hcl Hk Hb Hitems.
  - exists st. rewrite app_nil_r. now repeat split.
  - apply andb_prop in Hb as [Hl Hb].
    rewrite loop_body_classify, (classify_bullet _ Hl). simpl.
    destruct (on_bullet_active st (strip l) p c k items Hp Hcl Hk Hitems)
      as (st1 & -> & Hp1 & Hcl1 & Hk1 & Hitems1). simpl.
    rewrite <- Hp1 in Hp. rewrite <- Hcl1 in Hcl. rewrite <- Hk1 in Hk.
    destruct (IH st1 p c k _ Hp Hcl Hk Hb Hitems1)
      as (st2 & -> & Hp2 & Hcl2 & Hk2 & Hitems2).
    exists st2. rewrite <- app_assoc in Hitems2.
    repeat split; congruence.
Qed.

Lemma names_of_length bullets :
  (forall l, In l bullets -> truthy (_extract_item_name (strip l)) <> None) ->
  length (names_of bullets) = length bullets.
Proof.
  induction bullets as [|l bullets IH]; simpl; intros H; [reflexivity|].
  rewrite length_app, IH by auto.
  destruct (truthy (_extract_item_name (strip l))) eqn:E; [reflexivity|].
  now elim (H l (or_introl eq_refl)).
Qed.

Lemma bullets_after_prefix pre bullets st p c k :
  run initial pre = Return st ->
  truthy (phase st) = Some p -> truthy (terraria_class st) = Some c ->
  truthy (category st) = Some k ->
  forallb is_bullet bullets = true ->
  exists items st',
    items_at (result st) p c k = Some items /\
    run initial (pre ++ bullets) = Return st' /\
    items_at (result st') p c k = Some (items ++ names_of bullets).
Proof.
  intros Hpre Hp Hcl Hk Hb.
  destruct (run_reachable _ _ Hpre) as [_ Hc].
  destruct (items_at_active _ _ _ _ Hc Hp Hcl Hk) as (items & Hitems).
  destruct (bullets_append bullets st p c k items Hp Hcl Hk Hb Hitems)
    as (st' & E & _ & _ & _ & Hitems').
  exists items, st'. rewrite run_app, Hpre. simpl. now repeat split.
Qed.

(** C8, as the code has it.  A run of bullet lines under one active phase,
    class and category appends to the item list of that category the names
    extracted from the lines, in line order and with duplicates; a line from
    which no non-empty name is extracted appends nothing, so the list grows
    by exactly the number of lines when every line yields a name. *)
Theorem append_order_preservation pre bullets st p c k :
  run initial pre = Return st ->
  truthy (phase st) = Some p -> truthy (terraria_class st) = Some c ->
  truthy (category st) = Some k ->
  forallb is_bullet bullets = true ->
  exists items st',
    items_at (result st) p c k = Some items /\
    run initial (pre ++ bullets) = Return st' /\
    items_at (result st') p c k = Some (items ++ names_of bullets) /\
    ((forall l, In l bullets ->
        truthy (_extract_item_name (strip l)) <> None) ->
     length (names_of bullets) = length bullets).
Proof.
  intros Hpre Hp Hcl Hk Hb.
  destruct (bullets_after_prefix pre bullets st p c k Hpre Hp Hcl Hk Hb)
    as (items & st' & Hitems & E & Hitems').
  exists items, st'. repeat split; auto. apply names_of_length.
Qed.

Lemma append_order_preservation_witness :
  exists items st',
    items_at (result sample_state) (lit "Phase A") (lit "Ranged") (lit "Weapons")
    = Some items /\
    run initial (sample_context
                 ++ [lit "* {{item|Sword}}"; lit "* [[Bow]]"; lit "* [[Sword]]"])
    = Return st' /\
    items_at (result st') (lit "Phase A") (lit "Ranged") (lit "Weapons")
    = Some (items ++ names_of [lit "* {{item|Sword}}"; lit "* [[Bow]]";
                               lit "* [[Sword]]"]) /\
    ((forall l, In l [lit "* {{item|Sword}}"; lit "* [[Bow]]"; lit "* [[Sword]]"] ->
        truthy (_extract_item_name (strip l)) <> None) ->
     length (names_of [lit "* {{item|Sword}}"; lit "* [[Bow]]"; lit "* [[Sword]]"])
     = length [lit "* {{item|Sword}}"; lit "* [[Bow]]"; lit "* [[Sword]]"]).
Proof.
  exact (append_order_preservation sample_context
           [lit "* {{item|Sword}}"; lit "* [[Bow]]"; lit "* [[Sword]]"]
           sample_state (lit "Phase A") (lit "Ranged") (lit "Weapons")
           eq_refl eq_refl eq_refl eq_refl eq_refl).
Defined.

(** C8 as stated fails: one bullet line without an item reference, under an
    active phase, class and category, leaves the item list with no entry. *)
Lemma append_order_counterexample :
  run initial sample_context = Return sample_state /\
  forallb is_bullet [lit "* see the wiki"] = true /\
  parse_lines (sample_context ++ [lit "* see the wiki"])
  = Return [(lit "Phase A", [(lit "Ranged", [(lit "Weapons", [])])])] /\
  length (@nil str) <> length [lit "* see the wiki"].
Proof. repeat split; try (vm_compute; reflexivity). discriminate. Qed.

(** ** Item names *)

(** C7, as the code has it.  On a bullet line where both patterns match,
    the name extracted is the one captured by the item template, trimmed,
    whatever the link pattern captures; under an active phase, class and
    category that name is the one appended to the item list when it is not
    empty, and nothing is appended when it is: the name of the link is not
    taken in its place. *)
Theorem item_template_priority pre raw_line st p c k g g' :
  run initial pre = Return st ->
  truthy (phase st) = Some p -> truthy (terraria_class st) = Some c ->
  truthy (category st) = Some k ->
  is_bullet raw_line = true ->
  ITEM_TEMPLATE_RE (strip raw_line) = Some g ->
  WIKI_LINK_RE (strip raw_line) = Some g' ->
  _extract_item_name (strip raw_line) = Some (strip g) /\
  exists items st',
    items_at (result st) p c k = Some items /\
    run initial (pre ++ [raw_line]) = Return st' /\
    items_at (result st') p c k
    = Some (items ++ match strip g with [] => [] | _ :: _ => [strip g] end).
Proof.
  intros Hpre Hp Hcl Hk Hb Hitem Hlink.
  assert (Hname : _extract_item_name (strip raw_line) = Some (strip g)).
  { unfold _extract_item_name. now rewrite Hitem. }
  split; [exact Hname|].
  assert (Hbs : forallb is_bullet [raw_line] = true).
  { simpl. now rewrite Hb. }
  destruct (bullets_after_prefix pre [raw_line] st p c k
              Hpre Hp Hcl Hk Hbs) as (items & st' & Hitems & E & Hitems').
  exists items, st'. repeat split; auto.
  rewrite Hitems'. simpl. rewrite Hname, app_nil_r.
  now destruct (strip g).
Qed.

Lemma item_template_priority_witness :
  _extract_item_name (strip (lit "* {{item|Sword}} or [[Bow]]"))
  = Some (strip (lit "Sword")) /\
  exists items st',
    items_at (result sample_state) (lit "Phase A") (lit "Ranged") (lit "Weapons")
    = Some items /\
    run initial (sample_context ++ [lit "* {{item|Sword}} or [[Bow]]"])
    = Return st' /\
    items_at (result st') (lit "Phase A") (lit "Ranged") (lit "Weapons")
    = Some (items ++ match strip (lit "Sword") with
                     | [] => []
                     | _ :: _ => [strip (lit "Sword")]
                     end).
Proof.
  exact (item_template_priority sample_context
           (lit "* {{item|Sword}} or [[Bow]]") sample_state
           (lit "Phase A") (lit "Ranged") (lit "Weapons")
           (lit "Sword") (lit "Bow")
           eq_refl eq_refl eq_refl eq_refl eq_refl eq_refl eq_refl).
Defined.

(** C7 as stated fails: on the bullet [* {{item| }} [[Bow]]] both patterns
    match, the item template captures a blank, and under an active phase,
    class and category no name is recorded. *)
Lemma item_template_priority_counterexample :
  is_bullet (lit "* {{item| }} [[Bow]]") = true /\
  ITEM_TEMPLATE_RE (strip (lit "* {{item| }} [[Bow]]")) = Some (lit " ") /\
  WIKI_LINK_RE (strip (lit "* {{item| }} [[Bow]]")) = Some (lit "Bow") /\
  _extract_item_name (strip (lit "* {{item| }} [[Bow]]")) = Some [] /\
  run initial sample_context = Return sample_state /\
  parse_lines (sample_context ++ [lit "* {{item| }} [[Bow]]"])
  = Return [(lit "Phase A", [(lit "Ranged", [(lit "Weapons", [])])])].
Proof. repeat split; vm_compute; reflexivity. Qed.

Lemma orphan_suppression_witness :
  parse_guide (lit "=== Ranged ===" ++ nl ++ lit ";Weapons" ++ nl ++
               lit "* [[Bow]]" ++ nl ++ lit "== Phase A ==")
  = parse_lines [lit "== Phase A =="] /\
  parse_guide (lit "== Phase A ==" ++ nl ++ lit ";Weapons" ++ nl ++
               lit "* [[Bow]]" ++ nl ++ lit "=== Ranged ===")
  = parse_lines ([lit "== Phase A =="] ++ [lit "=== Ranged ==="]).
Proof.
  split.
  - exact (proj1 orphan_suppression
             (lit "=== Ranged ===" ++ nl ++ lit ";Weapons" ++ nl ++
              lit "* [[Bow]]" ++ nl ++ lit "== Phase A ==")
             [lit "=== Ranged ==="; lit ";Weapons"; lit "* [[Bow]]"]
             [lit "== Phase A =="] eq_refl eq_refl).
  - exact (proj2 orphan_suppression
             (lit "== Phase A ==" ++ nl ++ lit ";Weapons" ++ nl ++
              lit "* [[Bow]]" ++ nl ++ lit "=== Ranged ===")
             [lit "== Phase A =="] (lit ";Weapons") [lit "* [[Bow]]"]
             [lit "=== Ranged ==="]
             (Locals [(lit "Phase A", [])] (Some (lit "Phase A")) None None)
             eq_refl eq_refl (or_intror eq_refl) eq_refl eq_refl).
Defined.

(** ** The cache *)

Lemma Qltb_true (a b : Q) : (a < b)%Q -> Qltb a b = true.
Proof.
  intros H. unfold Qltb. destruct (Qle_bool b a) eqn:E; [|reflexivity].
  apply Qle_bool_iff in E. exfalso. exact (Qlt_not_le _ _ H E).
Qed.

Lemma Qltb_false (a b : Q) : (b <= a)%Q -> Qltb a b = false.
Proof.
  intros H. unfold Qltb. apply Qle_bool_iff in H. now rewrite H.
Qed.

Lemma cache_is_fresh_stale w now fetched_at :
  GuideFetchedAt w = Some fetched_at ->
  (CACHE_TTL <= now - fetched_at)%Q ->
  cache_is_fresh w now = false.
Proof.
  intros Ht Hstale. unfold cache_is_fresh. rewrite Ht.
  destruct (GuideCache w); [reflexivity|].
  rewrite (Qltb_false _ _ Hstale). apply andb_false_r.
Qed.

Lemma cache_is_fresh_empty w now :
  GuideCache w = [] -> cache_is_fresh w now = false.
Proof. intros H. unfold cache_is_fresh. now rewrite H. Qed.

(** A call that finds no fresh cache sends one request; a failed fetch
    leaves both globals as they were. *)
Lemma get_guide_data_miss wiki now w :
  cache_is_fresh w now = false ->
  requests (snd (get_guide_data wiki now w)) = S (requests w) /\
  forall e, fst (fetch_wikitext wiki w) = Raise e ->
    get_guide_data wiki now w
    = (Raise e, World (GuideCache w) (GuideFetchedAt w) (S (requests w))).
Proof.
  intros Hmiss. unfold get_guide_data. rewrite Hmiss.
  unfold fetch_wikitext. simpl. split.
  - now destruct (bind _ _).
  - intros e ->. reflexivity.
Qed.

(** C2, as the code has it.  When the cached entry is stale and the fetch
    of the refresh fails, [get_guide_data] raises the failure to its caller;
    the cached index and its timestamp stay as they were. *)
Theorem stale_fetch_failure_propagates wiki now w fetched_at e :
  GuideFetchedAt w = Some fetched_at ->
  (CACHE_TTL <= now - fetched_at)%Q ->
  fst (fetch_wikitext wiki w) = Raise e ->
  get_guide_data wiki now w
  = (Raise e, World (GuideCache w) (GuideFetchedAt w) (S (requests w))).
Proof.
  intros Ht Hstale Hfail.
  apply (get_guide_data_miss wiki now w); [|exact Hfail].
  exact (cache_is_fresh_stale _ _ _ Ht Hstale).
Qed.

Lemma stale_fetch_failure_propagates_witness :
  get_guide_data wiki_down (inject_Z 3700) sample_world
  = (Raise ClientError,
     World (GuideCache sample_world) (GuideFetchedAt sample_world)
           (S (requests sample_world))).
Proof.
  apply (stale_fetch_failure_propagates wiki_down (inject_Z 3700)
           sample_world (inject_Z 100) ClientError).
  - reflexivity.
  - vm_compute. discriminate.
  - reflexivity.
Defined.

(** C2 as stated fails: with a populated cache fetched at 100, a call at
    3700 finds it stale, the fetch fails, and the caller gets the exception,
    not the cached index. *)
Lemma stale_fallback_counterexample :
  GuideCache sample_world <> [] /\
  GuideFetchedAt sample_world = Some (inject_Z 100) /\
  (CACHE_TTL <= inject_Z 3700 - inject_Z 100)%Q /\
  fst (fetch_wikitext wiki_down sample_world) = Raise ClientError /\
  fst (get_guide_data wiki_down (inject_Z 3700) sample_world)
  = Raise ClientError /\
  fst (get_guide_data wiki_down (inject_Z 3700) sample_world)
  <> Return (GuideCache sample_world).
Proof.
  repeat split; try reflexivity; discriminate.
Qed.

(** C3, as the code has it.  With a TTL of 3600 seconds, a non-empty cached
    index and a non-zero timestamp, a call at [timestamp + 3599] returns the
    cached index and sends no request; a call at [timestamp + 3601] sends
    exactly one. *)
Theorem cache_freshness_boundary wiki w fetched_at :
  GuideFetchedAt w = Some fetched_at ->
  ~ (fetched_at == 0)%Q ->
  GuideCache w <> [] ->
  CACHE_TTL = inject_Z 3600 /\
  get_guide_data wiki (fetched_at + inject_Z 3599) w
  = (Return (GuideCache w), w) /\
  requests (snd (get_guide_data wiki (fetched_at + inject_Z 3601) w))
  = S (requests w).
Proof.
  intros Ht Hnz Hne. split; [reflexivity|]. split.
  - unfold get_guide_data, cache_is_fresh. rewrite Ht.
    destruct (GuideCache w) as [|entry rest]; [congruence|].
    destruct (Qeq_bool fetched_at 0) eqn:E.
    + apply Qeq_bool_iff in E. contradiction.
    + rewrite Qltb_true; [reflexivity|].
      unfold CACHE_TTL. simpl inject_Z.
      setoid_replace (fetched_at + inject_Z 3599 - fetched_at)%Q
        with (inject_Z 3599) by ring.
      reflexivity.
  - apply get_guide_data_miss.
    apply (cache_is_fresh_stale _ _ fetched_at Ht).
    unfold CACHE_TTL. simpl inject_Z.
    setoid_replace (fetched_at + inject_Z 3601 - fetched_at)%Q
      with (inject_Z 3601) by ring.
    discriminate.
Qed.

Lemma cache_freshness_boundary_witness :
  CACHE_TTL = inject_Z 3600 /\
  get_guide_data wiki_down (inject_Z 100 + inject_Z 3599) sample_world
  = (Return (GuideCache sample_world), sample_world) /\
  requests (snd (get_guide_data wiki_down (inject_Z 100 + inject_Z 3601)
                   sample_world))
  = S (requests sample_world).
Proof.
  apply (cache_freshness_boundary wiki_down sample_world (inject_Z 100)).
  - reflexivity.
  - vm_compute. discriminate.
  - discriminate.
Defined.

(** C3 as stated fails: a successful refresh at time 100 of a page without
    phase headings stores an empty index, and the call at [100 + 3599]
    sends a second request. *)
Lemma cache_freshness_counterexample :
  get_guide_data (wiki_serving (lit "no headings")) (inject_Z 100) startup
  = (Return [], World [] (Some (inject_Z 100)) 1) /\
  requests (snd (get_guide_data (wiki_serving (lit "no headings"))
                   (inject_Z 100 + inject_Z 3599)
                   (World [] (Some (inject_Z 100)) 1)))
  = 2%nat.
Proof. split; vm_compute; reflexivity. Qed.

(** C9. With no cached index, a failed fetch is raised to the caller of
    [get_guide_data], and the cache and its timestamp stay as they were:
    nothing is stored. *)
Theorem cold_start_failure_propagates wiki now w e :
  GuideCache w = [] ->
  fst (fetch_wikitext wiki w) = Raise e ->
  fst (get_guide_data wiki now w) = Raise e /\
  GuideCache (snd (get_guide_data wiki now w)) = GuideCache w /\
  GuideFetchedAt (snd (get_guide_data wiki now w)) = GuideFetchedAt w.
Proof.
  intros Hempty Hfail.
  destruct (get_guide_data_miss wiki now w (cache_is_fresh_empty _ _ Hempty))
    as [_ H].
  rewrite (H e Hfail). simpl. now repeat split.
Qed.

Lemma cold_start_failure_propagates_witness :
  fst (get_guide_data wiki_down (inject_Z 5) startup) = Raise ClientError /\
  GuideCache (snd (get_guide_data wiki_down (inject_Z 5) startup))
  = GuideCache startup /\
  GuideFetchedAt (snd (get_guide_data wiki_down (inject_Z 5) startup))
  = GuideFetchedAt startup.
Proof.
  apply (cold_start_failure_propagates wiki_down (inject_Z 5) startup
           ClientError); reflexivity.
Defined.

(** C10. Once a refresh has stored an empty index (the call returned one),
    the cache holds an empty index and every later call sends a request
    whatever the time: the call right after it, and any call made while the
    cached index is empty. *)
Theorem empty_index_refetches wiki now0 w0 w1 :
  get_guide_data wiki now0 w0 = (Return [], w1) ->
  GuideCache w1 = [] /\
  (forall now,
     requests (snd (get_guide_data wiki now w1)) = S (requests w1)) /\
  (forall now w,
     GuideCache w = [] ->
     requests (snd (get_guide_data wiki now w)) = S (requests w)).
Proof.
  intros H.
  assert (Hempty : GuideCache w1 = []).
  { unfold get_guide_data in H.
    destruct (cache_is_fresh w0 now0) eqn:Hfresh.
    - injection H as Hc <-. unfold cache_is_fresh in Hfresh.
      now rewrite Hc in Hfresh.
    - unfold fetch_wikitext in H. simpl in H.
      destruct (bind _ _) as [idx|e] in H; [|discriminate].
      injection H as -> <-. reflexivity. }
  split; [exact Hempty|]. split.
  - intros now. apply get_guide_data_miss, cache_is_fresh_empty, Hempty.
  - intros now w Hw. apply get_guide_data_miss, cache_is_fresh_empty, Hw.
Qed.

Lemma empty_index_refetches_witness :
  GuideCache (World [] (Some (inject_Z 100)) 1) = [] /\
  (forall now,
     requests (snd (get_guide_data (wiki_serving (lit "no headings")) now
                      (World [] (Some (inject_Z 100)) 1)))
     = S (requests (World [] (Some (inject_Z 100)) 1))) /\
  (forall now w,
     GuideCache w = [] ->
     requests (snd (get_guide_data (wiki_serving (lit "no headings")) now w))
     = S (requests w)).
Proof.
  exact (empty_index_refetches (wiki_serving (lit "no headings"))
           (inject_Z 100) startup (World [] (Some (inject_Z 100)) 1) eq_refl).
Defined.

(** * Further properties of the parser *)

(** ** The keys of the index *)

Lemma existsb_str_eqb_get {V} (d : dict V) k :
  existsb (str_eqb k) (keys d) = match get d k with Some _ => true | None => false end.
Proof.
  induction d as [|[k' v] d IH]; simpl; [reflexivity|].
  destruct (str_eqb_spec k k') as [->|Hk].
  - now rewrite str_eqb_refl.
  - rewrite str_eqb_neq by congruence. exact IH.
Qed.

Lemma keys_setdefault_add_key {V} (d : dict V) k v :
  keys (setdefault d k v) = add_key (keys d) k.
Proof.
  rewrite keys_setdefault. unfold add_key. rewrite existsb_str_eqb_get.
  now destruct (get d k).
Qed.

Lemma register_class_keys r p c r' :
  register_class r p c = Return r' -> keys r' = keys r.
Proof.
  unfold register_class, getitem.
  destruct (get r p) as [classes|] eqn:Hg; simpl; [|discriminate].
  intros [= <-]. eapply keys_set_item; eauto.
Qed.

Lemma register_category_keys r p c k r' :
  register_category r p c k = Return r' -> keys r' = keys r.
Proof.
  unfold register_category, getitem.
  destruct (get r p) as [classes|] eqn:Hg; simpl; [|discriminate].
  destruct (get classes c) as [cats|]; simpl; [|discriminate].
  intros [= <-]. eapply keys_set_item; eauto.
Qed.

Lemma append_item_keys r p c k name r' :
  append_item r p c k name = Return r' -> keys r' = keys r.
Proof.
  unfold append_item, getitem.
  destruct (get r p) as [classes|] eqn:Hg; simpl; [|discriminate].
  destruct (get classes c) as [cats|]; simpl; [|discriminate].
  destruct (get cats k) as [items|]; simpl; [|discriminate].
  intros [= <-]. eapply keys_set_item; eauto.
Qed.

(** Only a phase heading touches the top level of the index. *)
Lemma on_line_keys st kind st' :
  on_line st kind = Return st' ->
  keys (result st')
  = match kind with
    | PhaseHeading text => add_key (keys (result st)) text
    | _ => keys (result st)
    end.
Proof.
  destruct kind as [text|text|text|line|]; simpl.
  - intros [= <-]. simpl. apply keys_setdefault_add_key.
  - unfold on_class_heading.
    destruct (truthy (phase st)) as [p|].
    + destruct (register_class (result st) p text) as [r|] eqn:E; simpl;
        [|discriminate].
      intros [= <-]. simpl. eapply register_class_keys; eauto.
    + simpl. now intros [= <-].
  - unfold on_category_marker.
    destruct (truthy (phase st)) as [p|];
      [destruct (truthy (terraria_class st)) as [c|]|];
      try (simpl; now intros [= <-]).
    destruct (register_category (result st) p c text) as [r|] eqn:E; simpl;
      [|discriminate].
    intros [= <-]. simpl. eapply register_category_keys; eauto.
  - unfold on_bullet.
    destruct (truthy (phase st)) as [p|];
      [destruct (truthy (terraria_class st)) as [c|];
       [destruct (truthy (category st)) as [k|];
        [destruct (truthy (_extract_item_name line)) as [name|]|]|]|];
      try (now intros [= <-]).
    destruct (append_item (result st) p c k name) as [r|] eqn:E; simpl;
      [|discriminate].
    intros [= <-]. simpl. eapply append_item_keys; eauto.
  - now intros [= <-].
Qed.

Lemma run_keys lines : forall st st',
  run st lines = Return st' ->
  keys (result st') = fold_left add_key (phase_texts lines) (keys (result st)).
Proof.
  induction lines as [|l lines IH]; simpl; intros st st'.
  - now intros [= <-].
  - destruct (loop_body st l) as [st1|] eqn:E; simpl; [|discriminate].
    intros H. rewrite loop_body_classify in E.
    rewrite fold_left_app, (IH _ _ H). f_equal.
    rewrite (on_line_keys _ _ _ E). now destruct (classify l).
Qed.

(** X1. The phases of the parsed index are the texts of the phase heading
    lines of the page, without repetition, in the order in which they
    first appear. *)
Theorem phases_in_order_of_appearance (wikitext : str) :
  exists idx,
    parse_guide wikitext = Return idx /\
    keys idx = first_occurrences (phase_texts (splitlines wikitext)).
Proof.
  unfold parse_guide, parse_lines.
  destruct (run_inv (splitlines wikitext) _ inv_initial) as (st & E & _).
  rewrite E. simpl. exists (result st). split; [reflexivity|].
  exact (run_keys _ _ _ E).
Qed.

Lemma add_key_not_nil ks k : add_key ks k <> [].
Proof.
  unfold add_key. destruct (existsb (str_eqb k) ks) eqn:E.
  - destruct ks; [discriminate E | discriminate].
  - destruct ks; discriminate.
Qed.

Lemma fold_add_key_not_nil l : forall ks, ks <> [] -> fold_left add_key l ks <> [].
Proof.
  induction l as [|k l IH]; simpl; intros ks H; [exact H|].
  apply IH, add_key_not_nil.
Qed.

Lemma phase_texts_nil lines :
  phase_texts lines = [] <->
  forallb (fun l => negb (is_phase_heading l)) lines = true.
Proof.
  induction lines as [|l lines IH]; simpl; [tauto|].
  destruct (is_phase_heading l) eqn:E; simpl.
  - destruct (classify_phase_heading _ E) as (text & ->). simpl.
    split; discriminate.
  - pose proof (classify_not_phase_heading _ E) as Hk.
    destruct (classify l) as [text| | | |]; simpl; try exact IH.
    now elim (Hk text).
Qed.

(** X2. The parsed index is empty exactly when no line of the page is a
    phase heading. *)
Theorem empty_index_iff_no_phase_heading (wikitext : str) :
  parse_guide wikitext = Return [] <->
  forallb (fun l => negb (is_phase_heading l)) (splitlines wikitext) = true.
Proof.
  rewrite <- phase_texts_nil.
  unfold parse_guide, parse_lines.
  destruct (run_inv (splitlines wikitext) _ inv_initial) as (st & E & _).
  rewrite E. simpl. pose proof (run_keys _ _ _ E) as Hk. simpl in Hk.
  split.
  - intros [= Hr]. rewrite Hr in Hk. simpl in Hk.
    destruct (phase_texts (splitlines wikitext)) as [|t ts]; [reflexivity|].
    simpl in Hk. symmetry in Hk. exfalso. revert Hk.
    apply fold_add_key_not_nil, add_key_not_nil.
  - intros Hp. rewrite Hp in Hk. simpl in Hk.
    destruct (result st); [reflexivity | discriminate].
Qed.

Lemma empty_index_iff_no_phase_heading_witness :
  parse_guide (lit "=== Ranged ===" ++ nl ++ lit ";Weapons") = Return [].
Proof.
  exact (proj2 (empty_index_iff_no_phase_heading
                  (lit "=== Ranged ===" ++ nl ++ lit ";Weapons")) eq_refl).
Defined.

(** ** Later lines only add *)

Section DictExt.

Context {V : Type} (R : V -> V -> Prop).
Hypothesis R_refl : forall v, R v v.
Hypothesis R_trans : forall a b c, R a b -> R b c -> R a c.

Lemma dict_ext_refl (d : dict V) : dict_ext R d d.
Proof.
  split; [exists []; now rewrite app_nil_r | now apply dict_le_refl].
Qed.

Lemma dict_ext_trans (a b c : dict V) :
  dict_ext R a b -> dict_ext R b c -> dict_ext R a c.
Proof.
  intros [[m1 H1] L1] [[m2 H2] L2]. split.
  - exists (m1 ++ m2). now rewrite H2, H1, app_assoc.
  - eapply dict_le_trans; eauto.
Qed.

Lemma dict_ext_setdefault (d : dict V) k v : dict_ext R d (setdefault d k v).
Proof.
  split; [|now apply dict_le_setdefault].
  rewrite keys_setdefault. destruct (get d k).
  - exists []. now rewrite app_nil_r.
  - now exists [k].
Qed.

Lemma dict_ext_set_item (d : dict V) k v0 v :
  get d k = Some v0 -> R v0 v -> dict_ext R d (set_item d k v).
Proof.
  intros Hg Hr. split; [|now apply dict_le_set_item with (v0 := v0)].
  exists []. now rewrite app_nil_r, (keys_set_item _ _ _ _ Hg).
Qed.

End DictExt.

Lemma items_ext_refl (items : Items) : exists more, items = items ++ more.
Proof. exists []. now rewrite app_nil_r. Qed.

Lemma items_ext_trans (a b c : Items) :
  (exists more, b = a ++ more) -> (exists more, c = b ++ more) ->
  exists more, c = a ++ more.
Proof. intros [m1 ->] [m2 ->]. exists (m1 ++ m2). now rewrite app_assoc. Qed.

Lemma cats_ext_refl (cats : Categories) :
  dict_ext (fun a b : Items => exists more, b = a ++ more) cats cats.
Proof. apply dict_ext_refl. exact items_ext_refl. Qed.

Lemma classes_ext_refl (classes : Classes) :
  dict_ext (dict_ext (fun a b : Items => exists more, b = a ++ more))
           classes classes.
Proof. apply dict_ext_refl. exact cats_ext_refl. Qed.

Lemma grows_refl r : grows r r.
Proof. apply dict_ext_refl. exact classes_ext_refl. Qed.

Lemma grows_trans a b c : grows a b -> grows b c -> grows a c.
Proof.
  apply dict_ext_trans. intros x y z. apply dict_ext_trans.
  intros x' y' z'. apply dict_ext_trans. exact items_ext_trans.
Qed.

Lemma register_class_grows r p c r' :
  register_class r p c = Return r' -> grows r r'.
Proof.
  unfold register_class, getitem.
  destruct (get r p) as [classes|] eqn:Hg; simpl; [|discriminate].
  intros [= <-]. apply dict_ext_set_item with (v0 := classes).
  - exact classes_ext_refl.
  - exact Hg.
  - apply dict_ext_setdefault. exact cats_ext_refl.
Qed.

Lemma register_category_grows r p c k r' :
  register_category r p c k = Return r' -> grows r r'.
Proof.
  unfold register_category, getitem.
  destruct (get r p) as [classes|] eqn:Hg; simpl; [|discriminate].
  destruct (get classes c) as [cats|] eqn:Hg'; simpl; [|discriminate].
  intros [= <-]. apply dict_ext_set_item with (v0 := classes).
  - exact classes_ext_refl.
  - exact Hg.
  - apply dict_ext_set_item with (v0 := cats).
    + exact cats_ext_refl.
    + exact Hg'.
    + apply dict_ext_setdefault. exact items_ext_refl.
Qed.

Lemma append_item_grows r p c k name r' :
  append_item r p c k name = Return r' -> grows r r'.
Proof.
  unfold append_item, getitem.
  destruct (get r p) as [classes|] eqn:Hg; simpl; [|discriminate].
  destruct (get classes c) as [cats|] eqn:Hg'; simpl; [|discriminate].
  destruct (get cats k) as [items|] eqn:Hg''; simpl; [|discriminate].
  intros [= <-]. apply dict_ext_set_item with (v0 := classes).
  - exact classes_ext_refl.
  - exact Hg.
  - apply dict_ext_set_item with (v0 := cats).
    + exact cats_ext_refl.
    + exact Hg'.
    + apply dict_ext_set_item with (v0 := items).
      * exact items_ext_refl.
      * exact Hg''.
      * now exists [name].
Qed.

Lemma on_line_grows st kind st' :
  on_line st kind = Return st' -> grows (result st) (result st').
Proof.
  destruct kind as [text|text|text|line|]; simpl.
  - intros [= <-]. simpl. apply dict_ext_setdefault. exact classes_ext_refl.
  - unfold on_class_heading.
    destruct (truthy (phase st)) as [p|].
    + destruct (register_class (result st) p text) as [r|] eqn:E; simpl;
        [|discriminate].
      intros [= <-]. simpl. eapply register_class_grows; eauto.
    + simpl. intros [= <-]. apply grows_refl.
  - unfold on_category_marker.
    destruct (truthy (phase st)) as [p|];
      [destruct (truthy (terraria_class st)) as [c|]|];
      try (simpl; intros [= <-]; apply grows_refl).
    destruct (register_category (result st) p c text) as [r|] eqn:E; simpl;
      [|discriminate].
    intros [= <-]. simpl. eapply register_category_grows; eauto.
  - unfold on_bullet.
    destruct (truthy (phase st)) as [p|];
      [destruct (truthy (terraria_class st)) as [c|];
       [destruct (truthy (category st)) as [k|];
        [destruct (truthy (_extract_item_name line)) as [name|]|]|]|];
      try (intros [= <-]; apply grows_refl).
    destruct (append_item (result st) p c k name) as [r|] eqn:E; simpl;
      [|discriminate].
    intros [= <-]. simpl. eapply append_item_grows; eauto.
  - intros [= <-]. apply grows_refl.
Qed.

Lemma run_grows lines : forall st st',
  run st lines = Return st' -> grows (result st) (result st').
Proof.
  induction lines as [|l lines IH]; simpl; intros st st'.
  - intros [= <-]. apply grows_refl.
  - destruct (loop_body st l) as [st1|] eqn:E; simpl; [|discriminate].
    intros H. rewrite loop_body_classify in E.
    eapply grows_trans; [eapply on_line_grows; eauto | eauto].
Qed.

(** X3. Reading on never takes anything back: the index of a page continues
    the index of any leading part of its lines.  Every phase, class and
    category of the shorter parse is still there, in the same order and
    before any new key, and every item list is extended at its end. *)
Theorem later_lines_only_add wikitext pre post :
  splitlines wikitext = pre ++ post ->
  exists before after,
    parse_lines pre = Return before /\
    parse_guide wikitext = Return after /\
    grows before after.
Proof.
  intros Hs. unfold parse_guide, parse_lines. rewrite Hs, run_app.
  destruct (run_inv pre _ inv_initial) as (st & E & Hinv).
  destruct (run_inv post _ Hinv) as (st' & E' & _).
  rewrite E. simpl. rewrite E'. simpl.
  exists (result st), (result st').
  split; [reflexivity|]. split; [reflexivity|].
  exact (run_grows _ _ _ E').
Qed.

Lemma later_lines_only_add_witness :
  exists before after,
    parse_lines sample_context = Return before /\
    parse_guide (lit "== Phase A ==" ++ nl ++ lit "=== Ranged ===" ++ nl ++
                 lit ";Weapons" ++ nl ++ lit "* [[Bow]]")
    = Return after /\
    grows before after.
Proof.
  exact (later_lines_only_add
           (lit "== Phase A ==" ++ nl ++ lit "=== Ranged ===" ++ nl ++
            lit ";Weapons" ++ nl ++ lit "* [[Bow]]")
           sample_context [lit "* [[Bow]]"] eq_refl).
Defined.

(** ** Names and keys are trimmed *)

Lemma lstrip_by_idem (p : char -> bool) (s : str) :
  lstrip_by p (lstrip_by p s) = lstrip_by p s.
Proof.
  induction s as [|c s IH]; simpl; [reflexivity|].
  destruct (p c) eqn:E; [exact IH|]. simpl. now rewrite E.
Qed.

Lemma lstrip_by_length (p : char -> bool) (s : str) :
  (length (lstrip_by p s) <= length s)%nat.
Proof.
  induction s as [|c s IH]; simpl; [lia|]. destruct (p c); simpl; lia.
Qed.

Lemma lstrip_by_fixed_head (p : char -> bool) (c : char) (s : str) :
  lstrip_by p (c :: s) = c :: s -> p c = false.
Proof.
  simpl. destruct (p c); [|reflexivity]. intros H.
  pose proof (lstrip_by_length p s) as Hl. rewrite H in Hl. simpl in Hl. lia.
Qed.

Lemma lstrip_by_rstrip_fixed (p : char -> bool) (t : str) :
  lstrip_by p t = t -> lstrip_by p (rstrip_by p t) = rstrip_by p t.
Proof.
  destruct t as [|c t]; [reflexivity|]. intros H.
  apply lstrip_by_fixed_head in H. unfold rstrip_by. simpl rev.
  rewrite lstrip_by_app. destruct (forallb p (rev t)).
  - simpl. rewrite H. simpl. now rewrite H.
  - rewrite rev_app_distr. simpl. now rewrite H.
Qed.

Lemma rstrip_by_idem (p : char -> bool) (s : str) :
  rstrip_by p (rstrip_by p s) = rstrip_by p s.
Proof.
  unfold rstrip_by. now rewrite rev_involutive, lstrip_by_idem.
Qed.

Lemma strip_by_idem (p : char -> bool) (s : str) :
  strip_by p (strip_by p s) = strip_by p s.
Proof.
  unfold strip_by.
  rewrite (lstrip_by_rstrip_fixed p (lstrip_by p s)) by apply lstrip_by_idem.
  apply rstrip_by_idem.
Qed.

Lemma strip_idem (s : str) : strip (strip s) = strip s.
Proof. apply strip_by_idem. Qed.

(** A name that [_extract_item_name] returns and [if name:] lets through. *)
Lemma extracted_name_clean line name :
  truthy (_extract_item_name line) = Some name -> clean_name name.
Proof.
  intros H. apply truthy_Some in H as [H Hne]. split; [exact Hne|].
  unfold _extract_item_name in H.
  destruct (ITEM_TEMPLATE_RE line) as [g|];
    [|destruct (WIKI_LINK_RE line) as [g|]; [|discriminate]];
    injection H as <-; apply strip_idem.
Qed.

Lemma classify_text_stripped raw_line :
  match classify raw_line with
  | PhaseHeading text | ClassHeading text | CategoryMarker text =>
      strip text = text
  | _ => True
  end.
Proof.
  unfold classify.
  destruct (startswith (strip raw_line) (lit "==")
            && negb (startswith (strip raw_line) (lit "===")));
    [apply strip_idem|].
  destruct (startswith (strip raw_line) (lit "===")); [apply strip_idem|].
  destruct (startswith (strip raw_line) (lit ";")); [apply strip_idem|].
  now destruct (startswith (strip raw_line) (lit "*")).
Qed.

Lemma clean_index_get (r : Index) p classes :
  clean_index r -> get r p = Some classes ->
  strip p = p /\ clean_classes classes.
Proof.
  intros H Hg. unfold clean_index in H. rewrite Forall_forall in H.
  exact (H _ (get_In _ _ _ Hg)).
Qed.

Lemma clean_classes_get (classes : Classes) c cats :
  clean_classes classes -> get classes c = Some cats ->
  strip c = c /\ clean_categories cats.
Proof.
  intros H Hg. unfold clean_classes in H. rewrite Forall_forall in H.
  exact (H _ (get_In _ _ _ Hg)).
Qed.

Lemma clean_categories_get (cats : Categories) k items :
  clean_categories cats -> get cats k = Some items ->
  strip k = k /\ Forall clean_name items.
Proof.
  intros H Hg. unfold clean_categories in H. rewrite Forall_forall in H.
  exact (H _ (get_In _ _ _ Hg)).
Qed.

Lemma register_class_clean r p c r' :
  strip c = c -> clean_index r ->
  register_class r p c = Return r' -> clean_index r'.
Proof.
  intros Hc Hr. unfold register_class, getitem.
  destruct (get r p) as [classes|] eqn:Hg; simpl; [|discriminate].
  intros [= <-]. destruct (clean_index_get _ _ _ Hr Hg) as [Hp Hcl].
  apply Forall_set_item; [exact Hr|]. split; [exact Hp|].
  apply Forall_setdefault; [exact Hcl|]. split; [exact Hc | constructor].
Qed.

Lemma register_category_clean r p c k r' :
  strip k = k -> clean_index r ->
  register_category r p c k = Return r' -> clean_index r'.
Proof.
  intros Hk Hr. unfold register_category, getitem.
  destruct (get r p) as [classes|] eqn:Hg; simpl; [|discriminate].
  destruct (get classes c) as [cats|] eqn:Hg'; simpl; [|discriminate].
  intros [= <-]. destruct (clean_index_get _ _ _ Hr Hg) as [Hp Hcl].
  destruct (clean_classes_get _ _ _ Hcl Hg') as [Hc Hcats].
  apply Forall_set_item; [exact Hr|]. split; [exact Hp|].
  apply Forall_set_item; [exact Hcl|]. split; [exact Hc|].
  apply Forall_setdefault; [exact Hcats|]. split; [exact Hk | constructor].
Qed.

Lemma append_item_clean r p c k name r' :
  clean_name name -> clean_index r ->
  append_item r p c k name = Return r' -> clean_index r'.
Proof.
  intros Hn Hr. unfold append_item, getitem.
  destruct (get r p) as [classes|] eqn:Hg; simpl; [|discriminate].
  destruct (get classes c) as [cats|] eqn:Hg'; simpl; [|discriminate].
  destruct (get cats k) as [items|] eqn:Hg''; simpl; [|discriminate].
  intros [= <-]. destruct (clean_index_get _ _ _ Hr Hg) as [Hp Hcl].
  destruct (clean_classes_get _ _ _ Hcl Hg') as [Hc Hcats].
  destruct (clean_categories_get _ _ _ Hcats Hg'') as [Hk Hitems].
  apply Forall_set_item; [exact Hr|]. split; [exact Hp|].
  apply Forall_set_item; [exact Hcl|]. split; [exact Hc|].
  apply Forall_set_item; [exact Hcats|]. split; [exact Hk|].
  apply Forall_app. split; [exact Hitems | now constructor].
Qed.

Lemma loop_body_clean st raw_line st' :
  clean_index (result st) ->
  loop_body st raw_line = Return st' -> clean_index (result st').
Proof.
  intros Hr. rewrite loop_body_classify.
  pose proof (classify_text_stripped raw_line) as Ht.
  destruct (classify raw_line) as [text|text|text|line|]; simpl.
  - intros [= <-]. simpl.
    apply Forall_setdefault; [exact Hr|]. split; [exact Ht | constructor].
  - unfold on_class_heading.
    destruct (truthy (phase st)) as [p|].
    + destruct (register_class (result st) p text) as [r|] eqn:E; simpl;
        [|discriminate].
      intros [= <-]. simpl. eapply register_class_clean; eauto.
    + simpl. now intros [= <-].
  - unfold on_category_marker.
    destruct (truthy (phase st)) as [p|];
      [destruct (truthy (terraria_class st)) as [c|]|];
      try (simpl; now intros [= <-]).
    destruct (register_category (result st) p c text) as [r|] eqn:E; simpl;
      [|discriminate].
    intros [= <-]. simpl. eapply register_category_clean; eauto.
  - unfold on_bullet.
    destruct (truthy (phase st)) as [p|];
      [destruct (truthy (terraria_class st)) as [c|];
       [destruct (truthy (category st)) as [k|];
        [destruct (truthy (_extract_item_name line)) as [name|] eqn:En|]|]|];
      try (now intros [= <-]).
    destruct (append_item (result st) p c k name) as [r|] eqn:E; simpl;
      [|discriminate].
    intros [= <-]. simpl. eapply append_item_clean; eauto.
    eapply extracted_name_clean; eauto.
  - now intros [= <-].
Qed.

Lemma run_clean lines : forall st st',
  clean_index (result st) ->
  run st lines = Return st' -> clean_index (result st').
Proof.
  induction lines as [|l lines IH]; simpl; intros st st' Hr.
  - now intros [= <-].
  - destruct (loop_body st l) as [st1|] eqn:E; simpl; [|discriminate].
    apply IH. eapply loop_body_clean; eauto.
Qed.

(** X4. In the parsed index no phase, class or category name has
    whitespace at either end, and every item name is non-empty and has
    none either. *)
Theorem parsed_names_are_trimmed (wikitext : str) :
  exists idx, parse_guide wikitext = Return idx /\ clean_index idx.
Proof.
  unfold parse_guide, parse_lines.
  destruct (run_inv (splitlines wikitext) _ inv_initial) as (st & E & _).
  rewrite E. simpl. exists (result st). split; [reflexivity|].
  eapply run_clean; [|exact E]. constructor.
Qed.

(** ** Lines that do not count *)

Lemma loop_body_inert st raw_line :
  inert raw_line = true -> loop_body st raw_line = Return st.
Proof.
  unfold inert. rewrite loop_body_classify.
  destruct (classify raw_line) as [text|text|text|line|]; simpl;
    try discriminate; [|reflexivity].
  unfold on_bullet.
  destruct (truthy (_extract_item_name line)); [discriminate|]. intros _.
  now destruct (truthy (phase st)), (truthy (terraria_class st)),
    (truthy (category st)).
Qed.

(** X5. A line that is neither a heading, nor a category marker, nor a
    bullet with an item reference (a blank line, a paragraph of prose, a
    bullet of plain text) can be removed from the page, wherever it stands,
    without changing the parsed index. *)
Theorem inert_lines_do_not_count wikitext pre raw_line post :
  splitlines wikitext = pre ++ raw_line :: post ->
  inert raw_line = true ->
  parse_guide wikitext = parse_lines (pre ++ post).
Proof.
  intros Hs Hi. unfold parse_guide, parse_lines. rewrite Hs, !run_app.
  destruct (run initial pre) as [st|e]; simpl; [|reflexivity].
  now rewrite (loop_body_inert st _ Hi).
Qed.

Lemma inert_lines_do_not_count_witness :
  parse_guide (lit "== Phase A ==" ++ nl ++ lit "Some prose." ++ nl ++
               lit "=== Ranged ===")
  = parse_lines ([lit "== Phase A =="] ++ [lit "=== Ranged ==="]).
Proof.
  exact (inert_lines_do_not_count
           (lit "== Phase A ==" ++ nl ++ lit "Some prose." ++ nl ++
            lit "=== Ranged ===")
           [lit "== Phase A =="] (lit "Some prose.") [lit "=== Ranged ==="]
           eq_refl eq_refl).
Defined.

Lemma splitlines_from_cons cur c s :
  splitlines_from cur (c :: s)
  = if is_linebreak c then
      rev cur ::
        match s with
        | c' :: s'' =>
            if (c =? 0x0D) && (c' =? 0x0A)
            then splitlines_from [] s''
            else splitlines_from [] s
        | [] => splitlines_from [] s
        end
    else splitlines_from (c :: cur) s.
Proof. reflexivity. Qed.

Lemma splitlines_from_nl (n : nat) : forall s cur,
  (length s <= n)%nat ->
  splitlines_from cur (s ++ nl) = splitlines_from cur s \/
  splitlines_from cur (s ++ nl) = splitlines_from cur s ++ [[]].
Proof.
  induction n as [|n IH]; intros s cur Hlen.
  - destruct s; [|simpl in Hlen; lia]. simpl.
    destruct cur; [right | left]; reflexivity.
  - destruct s as [|c s].
    + simpl. destruct cur; [right | left]; reflexivity.
    + simpl in Hlen. change ((c :: s) ++ nl) with (c :: (s ++ nl)).
      rewrite (splitlines_from_cons cur c (s ++ nl)),
              (splitlines_from_cons cur c s).
      destruct (is_linebreak c); [|apply IH; lia].
      destruct s as [|c' s].
      * simpl. destruct (c =? 13); simpl; [left | right]; reflexivity.
      * simpl in Hlen. change ((c' :: s) ++ nl) with (c' :: (s ++ nl)).
        cbv iota beta.
        destruct ((c =? 13) && (c' =? 10)).
        { destruct (IH s [] ltac:(lia)) as [-> | ->]; [left | right];
            reflexivity. }
        { change (c' :: s ++ nl) with ((c' :: s) ++ nl).
          destruct (IH (c' :: s) [] ltac:(simpl; lia)) as [-> | ->];
            [left | right]; reflexivity. }
Qed.

(** X6. A line feed added at the end of the page does not change the
    parsed index. *)
Theorem trailing_newline_does_not_count (wikitext : str) :
  parse_guide (wikitext ++ nl) = parse_guide wikitext.
Proof.
  unfold parse_guide, parse_lines, splitlines.
  destruct (splitlines_from_nl (length wikitext) wikitext [] (le_n _))
    as [-> | ->]; [reflexivity|].
  rewrite run_app.
  destruct (run initial (splitlines_from [] wikitext)) as [st|e];
    reflexivity.
Qed.

(** ** Reading an item reference back *)

Lemma take_while_app_stop (p : char -> bool) (name rest : str) :
  forallb p name = true ->
  match rest with [] => True | c :: _ => p c = false end ->
  take_while p (name ++ rest) = name.
Proof.
  intros Hn Hr. induction name as [|x name IH]; simpl in *.
  - destruct rest as [|c rest]; simpl; [reflexivity | now rewrite Hr].
  - apply andb_prop in Hn as [-> Hn]. now rewrite IH.
Qed.

Lemma search_skip (at_start : str -> option str) (s : str) (c : char) :
  at_start (c :: s) = None -> search at_start (c :: s) = search at_start s.
Proof. intros H. simpl. now rewrite H. Qed.

Lemma search_hit (at_start : str -> option str) (s g : str) :
  at_start s = Some g -> search at_start s = Some g.
Proof. intros H. destruct s; simpl; now rewrite H. Qed.

Lemma item_template_at_other (c : char) (s : str) :
  c <> 123 -> item_template_at (c :: s) = None.
Proof.
  intros H. unfold item_template_at. change (lit "{{") with [123; 123].
  simpl. now rewrite (proj2 (N.eqb_neq c 123) H).
Qed.

Lemma item_template_no_brace (s : str) :
  ~ In 123 s -> ITEM_TEMPLATE_RE s = None.
Proof.
  unfold ITEM_TEMPLATE_RE. induction s as [|c s IH]; intros H.
  - reflexivity.
  - rewrite search_skip.
    + apply IH. intros Hin. apply H. now right.
    + apply item_template_at_other. intros ->. apply H. now left.
Qed.

Lemma item_template_at_name (name rest : str) :
  name <> [] ->
  forallb (fun c => negb (one_of (lit "|}") c)) name = true ->
  match rest with [] => True | c :: _ => one_of (lit "|}") c = true end ->
  item_template_at (lit "{{item|" ++ name ++ rest) = Some name.
Proof.
  intros Hne Hn Hr. unfold item_template_at.
  change (lit "{{item|") with [123; 123; 105; 116; 101; 109; 124].
  change (lit "{{") with [123; 123]. change (lit "tem|") with [116; 101; 109; 124].
  cbn [app after_prefix N.eqb Pos.eqb lstrip_by].
  change (isspace 105) with false. cbv iota.
  change (one_of (lit "iI") 105) with true. cbv iota.
  cbn [after_prefix N.eqb Pos.eqb].
  assert (E : take_while (fun c => negb (one_of (lit "|}") c)) (name ++ rest)
              = name).
  { apply take_while_app_stop; [exact Hn|].
    destruct rest as [|c rest]; [exact I|]. now rewrite Hr. }
  rewrite E. destruct name; [now elim Hne | reflexivity].
Qed.

(** X7. An item written as a bullet with the item template is read back:
    for a non-empty name without [|] and [}], the line
    [* {{item|NAME] followed by [}], by [|] or by the end of the line
    gives [NAME], trimmed. *)
Theorem item_template_read_back (name rest : str) :
  name <> [] ->
  forallb (fun c => negb (one_of (lit "|}") c)) name = true ->
  match rest with [] => True | c :: _ => one_of (lit "|}") c = true end ->
  _extract_item_name (lit "* {{item|" ++ name ++ rest) = Some (strip name).
Proof.
  intros Hne Hn Hr. unfold _extract_item_name, ITEM_TEMPLATE_RE.
  change (lit "* {{item|" ++ name ++ rest)
    with (42 :: 32 :: (lit "{{item|" ++ name ++ rest)).
  rewrite search_skip by (apply item_template_at_other; discriminate).
  rewrite search_skip by (apply item_template_at_other; discriminate).
  now rewrite (search_hit _ _ _ (item_template_at_name name rest Hne Hn Hr)).
Qed.

Lemma item_template_read_back_witness :
  _extract_item_name (lit "* {{item|" ++ lit " Night's Edge " ++ lit "|mode=image}}")
  = Some (strip (lit " Night's Edge ")).
Proof.
  apply (item_template_read_back (lit " Night's Edge ") (lit "|mode=image}}"));
    [discriminate | reflexivity | reflexivity].
Defined.

Lemma forallb_impl {A} (p q : A -> bool) (l : list A) :
  (forall x, p x = true -> q x = true) ->
  forallb p l = true -> forallb q l = true.
Proof.
  intros H. induction l as [|x l IH]; simpl; [reflexivity|].
  intros Hp. apply andb_prop in Hp as [Hx Hl]. now rewrite (H _ Hx), IH.
Qed.

Lemma forallb_not_in (p : char -> bool) (x : char) (s : str) :
  p x = false -> forallb p s = true -> ~ In x s.
Proof.
  intros Hx Hs Hin. rewrite forallb_forall in Hs. specialize (Hs _ Hin).
  congruence.
Qed.

Lemma wiki_link_at_other (c : char) (s : str) :
  c <> 91 -> wiki_link_at (c :: s) = None.
Proof.
  intros H. unfold wiki_link_at. change (lit "[[") with [91; 91].
  simpl. now rewrite (proj2 (N.eqb_neq c 91) H).
Qed.

Lemma wiki_link_at_name (name display : str) :
  name <> [] ->
  forallb (fun c => negb (one_of (lit "|]") c)) name = true ->
  match display with [] => True | c :: _ => c = 124 end ->
  forallb (fun c => negb (one_of (lit "]") c)) display = true ->
  wiki_link_at (lit "[[" ++ name ++ display ++ lit "]]") = Some name.
Proof.
  intros Hne Hn Hd Hdisp. unfold wiki_link_at.
  change (lit "[[") with [91; 91].
  cbn [app after_prefix N.eqb Pos.eqb].
  assert (E : take_while (fun c => negb (one_of (lit "|]") c))
                (name ++ display ++ lit "]]") = name).
  { apply take_while_app_stop; [exact Hn|].
    destruct display as [|c display]; [reflexivity|]. now subst c. }
  rewrite E.
  assert (E' : lstrip_by (fun c => negb (one_of (lit "]") c))
                 (name ++ display ++ lit "]]") = lit "]]").
  { rewrite app_assoc, lstrip_by_app_all; [reflexivity|].
    rewrite forallb_app, Hdisp, andb_true_r.
    revert Hn. apply forallb_impl. intros c. unfold one_of. simpl.
    now destruct (c =? 124), (c =? 93). }
  rewrite E'. destruct name; [now elim Hne | reflexivity].
Qed.

(** X8. An item written as a bullet with a wiki link is read back: for a
    non-empty target without [|], []] and [{], and an optional display part
    [|TEXT] without []] and [{], the line [* [[TARGET|TEXT]]] gives the
    target, trimmed, and never the display text. *)
Theorem wiki_link_read_back (name display : str) :
  name <> [] ->
  forallb (fun c => negb (one_of (lit "|]{") c)) name = true ->
  match display with [] => True | c :: _ => c = 124 end ->
  forallb (fun c => negb (one_of (lit "]{") c)) display = true ->
  _extract_item_name (lit "* [[" ++ name ++ display ++ lit "]]")
  = Some (strip name).
Proof.
  intros Hne Hn Hd Hdisp.
  assert (Hn' : forallb (fun c => negb (one_of (lit "|]") c)) name = true).
  { revert Hn. apply forallb_impl. intros c. unfold one_of. simpl.
    now destruct (c =? 124), (c =? 93), (c =? 123). }
  assert (Hdisp' : forallb (fun c => negb (one_of (lit "]") c)) display = true).
  { revert Hdisp. apply forallb_impl. intros c. unfold one_of. simpl.
    now destruct (c =? 93), (c =? 123). }
  unfold _extract_item_name.
  rewrite item_template_no_brace.
  - unfold WIKI_LINK_RE.
    change (lit "* [[" ++ name ++ display ++ lit "]]")
      with (42 :: 32 :: (lit "[[" ++ name ++ display ++ lit "]]")).
    rewrite search_skip by (apply wiki_link_at_other; discriminate).
    rewrite search_skip by (apply wiki_link_at_other; discriminate).
    now rewrite (search_hit _ _ _ (wiki_link_at_name name display Hne Hn' Hd Hdisp')).
  - change (lit "* [[") with [42; 32; 91; 91]. change (lit "]]") with [93; 93].
    rewrite !in_app_iff. intros [H|[H|[H|H]]].
    + simpl in H. repeat destruct H as [H|H]; try discriminate; auto.
    + revert H. apply (forallb_not_in _ 123 name) with (2 := Hn). reflexivity.
    + revert H. apply (forallb_not_in _ 123 display) with (2 := Hdisp).
      reflexivity.
    + simpl in H. repeat destruct H as [H|H]; try discriminate; auto.
Qed.

Lemma wiki_link_read_back_witness :
  _extract_item_name (lit "* [[" ++ lit "Minishark" ++ lit "|the shark" ++ lit "]]")
  = Some (strip (lit "Minishark")).
Proof.
  apply (wiki_link_read_back (lit "Minishark") (lit "|the shark"));
    [discriminate | reflexivity | reflexivity | reflexivity].
Defined.

(** * Further properties of the cache *)

Lemma parse_guide_valid (text : str) (idx : Index) :
  parse_guide text = Return idx -> valid_index idx.
Proof.
  unfold parse_guide, parse_lines.
  destruct (run_inv (splitlines text) _ inv_initial) as (st & -> & Hv & _).
  simpl. now intros [= <-].
Qed.

Lemma parse_guide_of_Return (text : json) (idx : Index) :
  parse_guide_of text = Return idx ->
  exists s, text = JString s /\ parse_guide s = Return idx.
Proof.
  destruct text; simpl; try discriminate. intros H. now exists s.
Qed.

(** X9. Each call of [get_guide_data] does one of three things.  It serves
    the cache and changes nothing; or it sends one request, the fetch and
    the parse succeed, and it stores and returns the parsed index (a
    structurally valid one) together with the time of the call; or it sends
    one request, raises, and leaves the cached index and its timestamp as
    they were.  The two globals never change one without the other. *)
Theorem cache_entry_changes_as_a_whole wiki now w :
  (get_guide_data wiki now w = (Return (GuideCache w), w)) \/
  (exists text idx,
     fst (fetch_wikitext wiki w) = Return (JString text) /\
     parse_guide text = Return idx /\ valid_index idx /\
     get_guide_data wiki now w
     = (Return idx, World idx (Some now) (S (requests w)))) \/
  (exists e,
     get_guide_data wiki now w
     = (Raise e, World (GuideCache w) (GuideFetchedAt w) (S (requests w)))).
Proof.
  unfold get_guide_data.
  destruct (cache_is_fresh w now); [now left | right].
  unfold fetch_wikitext. simpl.
  destruct (bind (wiki (requests w)) _) as [text|e] eqn:Hf; simpl.
  - destruct (parse_guide_of text) as [idx|e] eqn:Hp.
    + left. destruct (parse_guide_of_Return _ _ Hp) as (s & -> & Hs).
      exists s, idx. split; [reflexivity|]. split; [exact Hs|].
      split; [exact (parse_guide_valid _ _ Hs) | reflexivity].
    + right. now exists e.
  - right. now exists e.
Qed.

(** X10. What a refresh stores is served afterwards: when a call at time
    [now] (not zero) fetched the page and returned a non-empty index, every
    call made at most [CACHE_TTL - 1] seconds after [now] returns the same
    index, sends no request and changes nothing, whatever the wiki would
    answer.  The second of margin keeps the comparison clear of the
    rounding of the float subtraction: a difference of at most 3599 is
    rounded to at most 3599. *)
Theorem refreshed_index_is_served wiki wiki' now now' w idx w1 :
  get_guide_data wiki now w = (Return idx, w1) ->
  requests w1 = S (requests w) ->
  idx <> [] ->
  ~ (now == 0)%Q ->
  (now' - now <= CACHE_TTL - 1)%Q ->
  get_guide_data wiki' now' w1 = (Return idx, w1).
Proof.
  intros H Hreq Hne Hnz Hmargin.
  assert (Hfresh : (now' - now < CACHE_TTL)%Q).
  { apply Qle_lt_trans with (1 := Hmargin). vm_compute. reflexivity. }
  assert (Hw1 : GuideCache w1 = idx /\ GuideFetchedAt w1 = Some now).
  { unfold get_guide_data in H. destruct (cache_is_fresh w now).
    - injection H as _ <-. lia.
    - unfold fetch_wikitext in H. simpl in H.
      destruct (bind _ _) as [idx'|e] in H; [|discriminate].
      injection H as -> <-. now split. }
  destruct Hw1 as [Hc Ht]. unfold get_guide_data, cache_is_fresh.
  rewrite Hc, Ht. destruct idx as [|entry idx]; [congruence|].
  destruct (Qeq_bool now 0) eqn:E.
  - apply Qeq_bool_iff in E. contradiction.
  - now rewrite (Qltb_true _ _ Hfresh).
Qed.

Lemma refreshed_index_is_served_witness :
  get_guide_data wiki_down (inject_Z 3699)
    (World (result sample_state) (Some (inject_Z 100)) 1)
  = (Return (result sample_state),
     World (result sample_state) (Some (inject_Z 100)) 1).
Proof.
  apply (refreshed_index_is_served
           (wiki_serving (lit "== Phase A ==" ++ nl ++ lit "=== Ranged ===" ++ nl ++
                          lit ";Weapons"))
           wiki_down (inject_Z 100) (inject_Z 3699) startup).
  - reflexivity.
  - reflexivity.
  - discriminate.
  - vm_compute. discriminate.
  - vm_compute. discriminate.
Defined.

(** * Links, settings and commands *)

(** ** wiki_item_link *)

(** Replacing one character by another goes character by character. *)
Lemma replace_char (s : str) (a b : char) :
  replace s [a] [b] = List.map (fun c => if c =? a then b else c) s.
Proof.
  unfold replace. induction s as [|c s IH]; [reflexivity|].
  cbn [replace_from startswith List.map length Nat.sub app].
  rewrite andb_true_r. destruct (c =? a); simpl; now rewrite IH.
Qed.

(** X11. The link of an item shows the name as it is and points to the
    wiki page whose path is the name with every space turned into an
    underscore: the path has the length of the name, no space, and is the
    name itself when the name has no space. *)
Theorem wiki_item_link_path (name : str) :
  exists url_name,
    wiki_item_link name
    = lit "[" ++ name ++ lit "](https://terraria.wiki.gg/wiki/" ++ url_name
      ++ lit ")" /\
    url_name = List.map (fun c => if c =? 32 then 95 else c) name /\
    length url_name = length name /\
    ~ In 32 url_name /\
    (~ In 32 name -> url_name = name).
Proof.
  exists (List.map (fun c => if c =? 32 then 95 else c) name).
  split; [|split; [reflexivity|split; [apply length_map|split]]].
  - unfold wiki_item_link. change (lit " ") with [32]. change (lit "_") with [95].
    now rewrite replace_char.
  - rewrite in_map_iff. intros (c & Hc & _).
    destruct (N.eqb_spec c 32); [discriminate | congruence].
  - intros Hno. induction name as [|c name IH]; [reflexivity|]. simpl.
    destruct (N.eqb_spec c 32) as [->|_].
    + exfalso. apply Hno. now left.
    + f_equal. apply IH. intros Hin. apply Hno. now right.
Qed.

(** ** The phase of each guild *)

Lemma lit_inj (a b : string) : lit a = lit b -> a = b.
Proof.
  unfold lit. intros H.
  rewrite <- (string_of_list_ascii_of_string a),
          <- (string_of_list_ascii_of_string b).
  f_equal. revert H.
  generalize (list_ascii_of_string a) (list_ascii_of_string b).
  induction l as [|x l IH]; intros [|y l']; simpl; try discriminate; auto.
  intros [= Hxy Hl]. f_equal; [|now apply IH].
  rewrite <- (ascii_N_embedding x), <- (ascii_N_embedding y). now rewrite Hxy.
Qed.

Lemma to_int_not_nil (n : Z) :
  Z.to_int n <> Decimal.Pos Decimal.Nil /\
  Z.to_int n <> Decimal.Neg Decimal.Nil.
Proof.
  destruct n as [|p|p]; simpl; split; try discriminate;
    intros [= H]; revert H; apply Unsigned.to_uint_nonnil.
Qed.

(** Two integers with the same decimal writing are equal. *)
Lemma str_of_int_inj (a b : Z) : str_of_int a = str_of_int b -> a = b.
Proof.
  unfold str_of_int. intros H. apply lit_inj in H.
  destruct (to_int_not_nil a) as [Ha1 Ha2], (to_int_not_nil b) as [Hb1 Hb2].
  pose proof (NilZero.isi _ Ha1 Ha2) as Ia.
  pose proof (NilZero.isi _ Hb1 Hb2) as Ib.
  rewrite H in Ia. rewrite Ia in Ib. injection Ib as Hab.
  rewrite <- (DecimalZ.of_to a), <- (DecimalZ.of_to b). now rewrite Hab.
Qed.

Lemma get_guild_phase_set json_dumps guild_id phase s :
  get_guild_phase (set_guild_phase json_dumps guild_id phase s) guild_id
  = phase.
Proof.
  unfold get_guild_phase, set_guild_phase, save_config, get_default. simpl.
  now rewrite !get_set_item_same.
Qed.

Lemma get_guild_phase_other json_dumps guild_id phase s other :
  guild_id <> other ->
  get_guild_phase (set_guild_phase json_dumps guild_id phase s) other
  = get_guild_phase s other.
Proof.
  intros Hne.
  assert (Hk : str_of_int guild_id <> str_of_int other).
  { intros H. apply Hne. now apply str_of_int_inj. }
  unfold get_guild_phase, set_guild_phase, save_config, get_default. simpl.
  rewrite get_set_item_other by exact Hk.
  now rewrite get_setdefault_other by exact Hk.
Qed.

(** X12. The phase set for a guild is the phase read for that guild, and
    setting it changes the phase read for no other guild. *)
Theorem set_then_get_guild_phase json_dumps guild_id phase s other :
  get_guild_phase (set_guild_phase json_dumps guild_id phase s) other
  = if (guild_id =? other)%Z then phase else get_guild_phase s other.
Proof.
  destruct (Z.eqb_spec guild_id other) as [<-|Hne].
  - apply get_guild_phase_set.
  - now apply get_guild_phase_other.
Qed.

Lemma set_item_twice {V} (d : dict V) k v v' :
  set_item (set_item d k v) k v' = set_item d k v'.
Proof.
  induction d as [|[k0 v0] d IH]; simpl.
  - now rewrite str_eqb_refl.
  - destruct (str_eqb k0 k) eqn:E; simpl; rewrite E; [reflexivity|].
    now rewrite IH.
Qed.

Lemma setdefault_present {V} (d : dict V) k v v0 :
  get d k = Some v0 -> setdefault d k v = d.
Proof. intros H. unfold setdefault. now rewrite H. Qed.

(** X13. The last phase set for a guild wins: setting a phase and then
    another one for the same guild leaves the configuration, and the file
    written, exactly as setting the second one alone does. *)
Theorem last_phase_set_wins json_dumps guild_id first second s :
  set_guild_phase json_dumps guild_id second
    (set_guild_phase json_dumps guild_id first s)
  = set_guild_phase json_dumps guild_id second s.
Proof.
  unfold set_guild_phase, save_config, get_default. simpl.
  rewrite (setdefault_present _ _ _ _ (get_set_item_same _ _ _)).
  rewrite get_set_item_same, !set_item_twice. reflexivity.
Qed.

(** ** Roles and classes *)

Lemma ROLE_TO_SECTION_values key section :
  get ROLE_TO_SECTION key = Some section ->
  In section [lit "Ranged"; lit "Mage"; lit "Summoner"; lit "Melee"].
Proof.
  intros H. apply get_In in H. unfold ROLE_TO_SECTION in H. simpl in H.
  repeat destruct H as [H|H]; try contradiction;
    injection H as _ <-; simpl; tauto.
Qed.

Lemma find_member_class_section unicode_lower roles c :
  find_member_class unicode_lower roles = Some c ->
  exists role,
    In role roles /\ get ROLE_TO_SECTION (lower unicode_lower role) = Some c.
Proof.
  induction roles as [|role roles IH]; cbn [find_member_class];
    [discriminate|].
  destruct (get ROLE_TO_SECTION (lower unicode_lower role)) as [s|] eqn:E.
  - intros [= <-]. exists role. split; [now left | exact E].
  - intros H. destruct (IH H) as (r & Hin & Hr). exists r.
    split; [now right | exact Hr].
Qed.

Lemma lower_nil unicode_lower : lower unicode_lower [] = [].
Proof. reflexivity. Qed.

Lemma startswith_nil (s : str) : startswith s [] = true.
Proof. reflexivity. Qed.

(** X14. A class guessed from the roles of a member is always one of the
    four class names of [CLASS_CHOICES], whatever their order, and it is
    among the choices that the autocompletion offers for an empty input. *)
Theorem guessed_class_is_a_choice unicode_lower CLASS_CHOICES roles c :
  Permutation CLASS_CHOICES
    [lit "Ranged"; lit "Mage"; lit "Summoner"; lit "Melee"] ->
  find_member_class unicode_lower roles = Some c ->
  In c CLASS_CHOICES /\
  In (c, c) (class_autocomplete unicode_lower CLASS_CHOICES []).
Proof.
  intros Hperm Hfind.
  destruct (find_member_class_section _ _ _ Hfind) as (role & _ & Hget).
  assert (Hin : In c CLASS_CHOICES).
  { apply (Permutation_in _ (Permutation_sym Hperm)).
    eapply ROLE_TO_SECTION_values; eauto. }
  split; [exact Hin|].
  unfold class_autocomplete. rewrite lower_nil.
  apply in_map_iff. exists c. split; [reflexivity|].
  apply filter_In. split; [exact Hin | apply startswith_nil].
Qed.

Lemma guessed_class_is_a_choice_witness :
  In (lit "Ranged") [lit "Ranged"; lit "Mage"; lit "Summoner"; lit "Melee"] /\
  In (lit "Ranged", lit "Ranged")
     (class_autocomplete (fun s => s)
        [lit "Ranged"; lit "Mage"; lit "Summoner"; lit "Melee"] []).
Proof.
  apply (guessed_class_is_a_choice (fun s => s)
           [lit "Ranged"; lit "Mage"; lit "Summoner"; lit "Melee"]
           [lit "Moderator"; lit "RANGER"; lit "mage"] (lit "Ranged")).
  - apply Permutation_refl.
  - reflexivity.
Defined.

(** X15. The guess does not depend on the letter case of ASCII role
    names: two lists of roles that differ only in case give the same
    class. *)
Theorem role_case_does_not_matter unicode_lower roles roles' :
  Forall2 (fun a b =>
             forallb is_ascii a = true /\ forallb is_ascii b = true /\
             List.map ascii_lower a = List.map ascii_lower b) roles roles' ->
  find_member_class unicode_lower roles
  = find_member_class unicode_lower roles'.
Proof.
  induction 1 as [|a b roles roles' (Ha & Hb & Hab) _ IH];
    cbn [find_member_class]; [reflexivity|].
  unfold lower. now rewrite Ha, Hb, Hab, IH.
Qed.

Lemma role_case_does_not_matter_witness :
  find_member_class (fun s => s) [lit "Moderator"; lit "SUMMONER"]
  = find_member_class (fun s => s) [lit "moderator"; lit "Summoner"].
Proof.
  apply role_case_does_not_matter.
  repeat constructor.
Defined.

Lemma startswith_app (s a b : str) :
  startswith s (a ++ b) = true -> startswith s a = true.
Proof.
  revert s. induction a as [|x a IH]; intros s; simpl; [reflexivity|].
  destruct s as [|c s]; [discriminate|].
  intros H. apply andb_prop in H as [-> H]. simpl. now apply IH.
Qed.

Lemma lower_app_ascii unicode_lower (a b : str) :
  forallb is_ascii a = true -> forallb is_ascii b = true ->
  lower unicode_lower (a ++ b) = lower unicode_lower a ++ lower unicode_lower b.
Proof.
  intros Ha Hb. unfold lower.
  now rewrite forallb_app, Ha, Hb, map_app.
Qed.

(** X16. Typing more narrows the autocompletion: for ASCII input, every
    choice offered for a text was already offered for each of its
    beginnings. *)
Theorem typing_more_narrows unicode_lower CLASS_CHOICES current more choice :
  forallb is_ascii current = true -> forallb is_ascii more = true ->
  In choice (class_autocomplete unicode_lower CLASS_CHOICES (current ++ more)) ->
  In choice (class_autocomplete unicode_lower CLASS_CHOICES current).
Proof.
  intros Hc Hm. unfold class_autocomplete.
  rewrite !in_map_iff. intros (c & Hcc & Hin). exists c. split; [exact Hcc|].
  apply filter_In in Hin as [Hin Hs]. apply filter_In. split; [exact Hin|].
  rewrite lower_app_ascii in Hs by assumption.
  eapply startswith_app; eauto.
Qed.

Lemma typing_more_narrows_witness :
  In (lit "Mage", lit "Mage")
     (class_autocomplete (fun s => s)
        [lit "Melee"; lit "Mage"; lit "Ranged"; lit "Summoner"] (lit "M")).
Proof.
  apply (typing_more_narrows (fun s => s)
           [lit "Melee"; lit "Mage"; lit "Ranged"; lit "Summoner"]
           (lit "M") (lit "aG") (lit "Mage", lit "Mage"));
    [reflexivity | reflexivity | ].
  vm_compute. left. reflexivity.
Defined.

(** ** /setup *)

Lemma join_cons_not_nil (sep part : str) (rest : list str) :
  part <> [] -> join sep (part :: rest) <> [].
Proof.
  intros H. cbn [join]. destruct rest; [exact H|].
  destruct part; [now elim H | discriminate].
Qed.

Lemma fields_of_names (class_data : Categories) :
  List.map (fun f => fst (fst f)) (fields_of class_data)
  = keys (filter (fun kv => match snd kv with [] => false | _ :: _ => true end)
                 class_data).
Proof.
  induction class_data as [|[category items] rest IH]; [reflexivity|].
  cbn [fields_of filter snd]. destruct items; [exact IH|].
  cbn [List.map keys]. unfold keys in IH. now rewrite IH.
Qed.

Lemma fields_of_values (class_data : Categories) :
  Forall (fun f => snd (fst f) <> [] /\ snd f = false) (fields_of class_data).
Proof.
  induction class_data as [|[category items] rest IH]; [constructor|].
  cbn [fields_of]. destruct items as [|i items]; [exact IH|].
  constructor; [|exact IH]. split; [|reflexivity].
  unfold field_of. cbn [fst snd List.map]. apply join_cons_not_nil.
  discriminate.
Qed.

(** X17. When the class is known, the guide is obtained, the phase of the
    guild has the class and the class has categories, [/setup] answers with
    an embed titled with the phase and the class; its fields are named
    after the categories that have items, in the order of the index, a
    category without items gets none, and no field has an empty value. *)
Theorem setup_embed_fields
    unicode_lower wiki guild_id roles terraria_class now utcnow s w
    class_name guide phase_data class_data :
  match truthy terraria_class with
  | Some c => Some c
  | None => find_member_class unicode_lower roles
  end = Some class_name ->
  fst (get_guide_data wiki now w) = Return guide ->
  get guide (get_guild_phase s guild_id) = Some phase_data ->
  get phase_data class_name = Some class_data ->
  class_data <> [] ->
  exists fields,
    fst (setup_cmd unicode_lower wiki guild_id roles terraria_class
                   now utcnow s w)
    = Return (EmbedReply
                (get_guild_phase s guild_id ++ lit " " ++ [0x2013] ++ lit " "
                 ++ class_name)
                0x16a085 utcnow fields) /\
    List.map (fun f => fst (fst f)) fields
    = keys (filter (fun kv => match snd kv with [] => false | _ :: _ => true end)
                   class_data) /\
    Forall (fun f => snd (fst f) <> [] /\ snd f = false) fields.
Proof.
  intros Hclass Hguide Hphase Hcls Hne.
  exists (fields_of class_data). split; [|split].
  - unfold setup_cmd. rewrite Hclass.
    destruct (get_guide_data wiki now w) as [g w1]. simpl in Hguide.
    subst g. rewrite Hphase.
    destruct phase_data as [|entry phase_data]; [discriminate Hcls|].
    rewrite Hcls. destruct class_data; [now elim Hne | reflexivity].
  - apply fields_of_names.
  - apply fields_of_values.
Qed.

Lemma setup_embed_fields_witness :
  exists fields,
    fst (setup_cmd (fun s => s)
           (wiki_serving (lit "== Phase A ==" ++ nl ++ lit "=== Ranged ===" ++ nl ++
                          lit ";Weapons" ++ nl ++ lit "* [[Bow]]" ++ nl ++
                          lit ";Armor"))
           7 [lit "ranger"] None (inject_Z 100) (inject_Z 5)
           (Settings [(lit "7", [(lit "phase", lit "Phase A")])] None) startup)
    = Return (EmbedReply
                (get_guild_phase
                   (Settings [(lit "7", [(lit "phase", lit "Phase A")])] None) 7
                 ++ lit " " ++ [0x2013] ++ lit " " ++ lit "Ranged")
                0x16a085 (inject_Z 5) fields) /\
    List.map (fun f => fst (fst f)) fields
    = keys (filter (fun kv => match snd kv with [] => false | _ :: _ => true end)
                   [(lit "Weapons", [lit "Bow"]); (lit "Armor", [])]) /\
    Forall (fun f => snd (fst f) <> [] /\ snd f = false) fields.
Proof.
  apply (setup_embed_fields (fun s => s)
           (wiki_serving (lit "== Phase A ==" ++ nl ++ lit "=== Ranged ===" ++ nl ++
                          lit ";Weapons" ++ nl ++ lit "* [[Bow]]" ++ nl ++
                          lit ";Armor"))
           7 [lit "ranger"] None (inject_Z 100) (inject_Z 5)
           (Settings [(lit "7", [(lit "phase", lit "Phase A")])] None) startup
           (lit "Ranged")
           [(lit "Phase A",
             [(lit "Ranged", [(lit "Weapons", [lit "Bow"]); (lit "Armor", [])])])]
           [(lit "Ranged", [(lit "Weapons", [lit "Bow"]); (lit "Armor", [])])]
           [(lit "Weapons", [lit "Bow"]); (lit "Armor", [])]);
    try reflexivity.
  discriminate.
Defined.

(** X18. [/setup] asks for the guide only once it knows the class.  Without
    a class it answers with an ephemeral message and leaves the cache and
    the request counter as they are; with a class its effect on them is
    that of one call of [get_guide_data], and an exception of that call is
    raised instead of an answer. *)
Theorem setup_consults_guide_after_class
    unicode_lower wiki guild_id roles terraria_class now utcnow s w :
  let class_name :=
    match truthy terraria_class with
    | Some c => Some c
    | None => find_member_class unicode_lower roles
    end in
  let out :=
    setup_cmd unicode_lower wiki guild_id roles terraria_class now utcnow s w in
  (class_name = None ->
     snd out = w /\ exists content, fst out = Return (Message content true)) /\
  (class_name <> None ->
     snd out = snd (get_guide_data wiki now w) /\
     forall e, fst (get_guide_data wiki now w) = Raise e ->
               fst out = Raise e).
Proof.
  intros class_name out. subst out. unfold setup_cmd. fold class_name.
  destruct class_name as [c|]; split; try congruence.
  - intros _. destruct (get_guide_data wiki now w) as [[guide|e] w1]; simpl.
    + split; [|discriminate].
      destruct (get guide (get_guild_phase s guild_id)) as [[|entry pd]|];
        try reflexivity.
      now destruct (get (entry :: pd) c) as [[|cat cd]|].
    + split; [reflexivity|]. now intros e' [= <-].
  - intros _. split; [reflexivity|]. now eexists.
Qed.

Lemma setup_consults_guide_after_class_witness :
  snd (setup_cmd (fun s => s) wiki_down 7 [lit "Moderator"] None
         (inject_Z 100) (inject_Z 5) (Settings [] None) startup)
  = startup /\
  exists content,
    fst (setup_cmd (fun s => s) wiki_down 7 [lit "Moderator"] None
           (inject_Z 100) (inject_Z 5) (Settings [] None) startup)
    = Return (Message content true).
Proof.
  exact (proj1 (setup_consults_guide_after_class (fun s => s) wiki_down 7
                  [lit "Moderator"] None (inject_Z 100) (inject_Z 5)
                  (Settings [] None) startup) eq_refl).
Defined.

(** ** /phase set *)

Lemma Qltb_spec (a b : Q) :
  (Qltb a b = true /\ (a < b)%Q) \/ (Qltb a b = false /\ (b <= a)%Q).
Proof.
  unfold Qltb. destruct (Qle_bool b a) eqn:E.
  - right. split; [reflexivity|]. now apply Qle_bool_iff.
  - left. split; [reflexivity|]. apply Qnot_le_lt. intros H.
    apply Qle_bool_iff in H. congruence.
Qed.

(** X19. [/phase set] stores a phase only for a match scored 60 or more,
    and what it stores is the matcher's choice, not the text typed: after
    it the phase read for the guild is that choice.  In every other case
    (the guide cannot be obtained, the matcher returns [None], which makes
    the unpacking raise [TypeError], or the score is below 60) the settings
    and the file are left as they were. *)
Theorem phase_set_stores_good_matches
    json_dumps extractOne wiki guild_id phase now s w :
  let out := phase_set json_dumps extractOne wiki guild_id phase now s w in
  let s' := snd (fst out) in
  snd out = snd (get_guide_data wiki now w) /\
  (s' = s \/
   exists idx best score i,
     fst (get_guide_data wiki now w) = Return idx /\
     extractOne phase (keys idx) = Some (best, score, i) /\
     (inject_Z 60 <= score)%Q /\
     s' = set_guild_phase json_dumps guild_id best s /\
     get_guild_phase s' guild_id = best /\
     fst (fst out)
     = Return (Message ([0x2705] ++ lit "  Phase set to **" ++ best ++ lit "**")
                       false)) /\
  (forall idx,
     fst (get_guide_data wiki now w) = Return idx ->
     extractOne phase (keys idx) = None ->
     fst (fst out) = Raise TypeError /\ s' = s) /\
  (forall idx best score i,
     fst (get_guide_data wiki now w) = Return idx ->
     extractOne phase (keys idx) = Some (best, score, i) ->
     (score < inject_Z 60)%Q ->
     s' = s /\ exists content, fst (fst out) = Return (Message content true)).
Proof.
  intros out s'. subst s' out. unfold phase_set.
  destruct (get_guide_data wiki now w) as [[idx|e] w1]; simpl.
  - destruct (extractOne phase (keys idx)) as [[[best score] i]|] eqn:Hx.
    + destruct (Qltb_spec score (inject_Z 60)) as [[-> Hlt]|[-> Hge]]; simpl.
      * split; [reflexivity|]. split; [now left|]. split.
        { intros idx' [= <-]. rewrite Hx. discriminate. }
        { intros idx' best' score' i' [= <-] _ _. split; [reflexivity|].
          now eexists. }
      * split; [reflexivity|]. split; [|split].
        { right. exists idx, best, score, i.
          split; [reflexivity|]. split; [exact Hx|]. split; [exact Hge|].
          split; [reflexivity|]. split; [|reflexivity].
          apply get_guild_phase_set. }
        { intros idx' [= <-]. rewrite Hx. discriminate. }
        { intros idx' best' score' i' [= <-]. rewrite Hx.
          intros [= <- <- <-] Hlt. exfalso. exact (Qlt_not_le _ _ Hlt Hge). }
    + split; [reflexivity|]. split; [now left|]. split.
      { intros idx' _ _. now split. }
      { intros idx' best' score' i' [= <-]. rewrite Hx. discriminate. }
  - split; [reflexivity|]. split; [now left|]. split.
    { intros idx' H. discriminate H. }
    { intros idx' best' score' i' H. discriminate H. }
Qed.

Lemma phase_set_stores_good_matches_witness :
  fst (fst (phase_set (fun _ => []) (fun _ _ => None)
              (wiki_serving (lit "no headings")) 7 (lit "Hardmode")
              (inject_Z 100) (Settings [] None) startup))
  = Raise TypeError /\
  snd (fst (phase_set (fun _ => []) (fun _ _ => None)
              (wiki_serving (lit "no headings")) 7 (lit "Hardmode")
              (inject_Z 100) (Settings [] None) startup))
  = Settings [] None.
Proof.
  exact (proj1 (proj2 (proj2
           (phase_set_stores_good_matches (fun _ => []) (fun _ _ => None)
              (wiki_serving (lit "no headings")) 7 (lit "Hardmode")
              (inject_Z 100) (Settings [] None) startup)))
           [] eq_refl eq_refl).
Defined.

(** X20. With a matcher that returns one of the choices it is given, the
    phase that a successful [/phase set] stores for the guild is one of the
    phases of the guide it has just consulted. *)
Theorem phase_set_stores_a_phase_of_the_guide
    json_dumps extractOne wiki guild_id phase now s w content s' w' :
  (forall query choices best score i,
     extractOne query choices = Some (best, score, i) -> In best choices) ->
  phase_set json_dumps extractOne wiki guild_id phase now s w
  = (Return (Message content false), s', w') ->
  exists idx,
    fst (get_guide_data wiki now w) = Return idx /\
    In (get_guild_phase s' guild_id) (keys idx).
Proof.
  intros Hmatch. unfold phase_set.
  destruct (get_guide_data wiki now w) as [[idx|e] w1]; simpl;
    [|discriminate].
  destruct (extractOne phase (keys idx)) as [[[best score] i]|] eqn:Hx;
    [|discriminate].
  destruct (Qltb score (inject_Z 60)); [discriminate|].
  intros [= _ <- _]. exists idx. split; [reflexivity|].
  rewrite get_guild_phase_set. eapply Hmatch; eauto.
Qed.

Lemma phase_set_stores_a_phase_of_the_guide_witness :
  exists idx,
    fst (get_guide_data (wiki_serving (lit "== Hardmode ==")) (inject_Z 100)
           startup) = Return idx /\
    In (get_guild_phase
          (set_guild_phase (fun _ => []) 7 (lit "Hardmode") (Settings [] None)) 7)
       (keys idx).
Proof.
  apply (phase_set_stores_a_phase_of_the_guide (fun _ => [])
           (fun _ choices => match choices with
                             | c :: _ => Some (c, inject_Z 100, 0%nat)
                             | [] => None
                             end)
           (wiki_serving (lit "== Hardmode ==")) 7 (lit "hardmod")
           (inject_Z 100) (Settings [] None) startup
           ([0x2705] ++ lit "  Phase set to **" ++ lit "Hardmode" ++ lit "**")
           (set_guild_phase (fun _ => []) 7 (lit "Hardmode") (Settings [] None))
           (World [(lit "Hardmode", [])] (Some (inject_Z 100)) 1)).
  - intros query [|c choices] best score i; [discriminate|].
    intros [= <- _ _]. now left.
  - reflexivity.
Defined.

(** ** Where the characters of a phase name come from *)

Lemma In_lstrip_by (p : char -> bool) (s : str) c :
  In c (lstrip_by p s) -> In c s.
Proof.
  induction s as [|x s IH]; simpl; [tauto|].
  destruct (p x); simpl; tauto.
Qed.

Lemma In_strip_by (p : char -> bool) (s : str) c :
  In c (strip_by p s) -> In c s.
Proof.
  unfold strip_by, rstrip_by. intros H.
  apply in_rev, In_lstrip_by, in_rev in H. exact (In_lstrip_by _ _ _ H).
Qed.

Lemma In_replace_from (old new : str) c : forall s skip,
  In c (replace_from skip s old new) -> In c s \/ In c new.
Proof.
  induction s as [|x s IH]; intros skip; simpl; [tauto|].
  destruct skip as [|k].
  - destruct (startswith (x :: s) old).
    + rewrite in_app_iff. intros [H|H]; [now right|].
      destruct (IH _ H); auto.
    + simpl. intros [H|H]; [auto|]. destruct (IH _ H); auto.
  - intros H. destruct (IH _ H); auto.
Qed.

Lemma In_splitlines_from (n : nat) : forall s cur line c,
  (length s <= n)%nat ->
  In line (splitlines_from cur s) -> In c line -> In c cur \/ In c s.
Proof.
  induction n as [|n IH]; intros s cur line c Hlen.
  - destruct s; [|simpl in Hlen; lia]. simpl.
    destruct cur as [|x cur]; [intros []|].
    intros [<-|[]] Hc. left. now apply in_rev.
  - destruct s as [|x s].
    + simpl. destruct cur as [|y cur]; [intros []|].
      intros [<-|[]] Hc. left. now apply in_rev.
    + simpl in Hlen. rewrite splitlines_from_cons.
      destruct (is_linebreak x).
      * intros [<-|Hin] Hc; [left; now apply in_rev|]. right. right.
        destruct s as [|x' s]; [destruct Hin|]. simpl in Hlen.
        destruct ((x =? 13) && (x' =? 10)).
        { destruct (IH s [] line c ltac:(lia) Hin Hc) as [[]|H]. now right. }
        { destruct (IH (x' :: s) [] line c ltac:(simpl; lia) Hin Hc)
            as [[]|H]. exact H. }
      * intros Hin Hc.
        destruct (IH s (x :: cur) line c ltac:(lia) Hin Hc) as [[H|H]|H].
        { right. left. exact H. }
        { left. exact H. }
        { right. right. exact H. }
Qed.

Lemma classify_phase_chars raw_line text c :
  classify raw_line = PhaseHeading text -> In c text ->
  In c raw_line \/ c = 32.
Proof.
  unfold classify.
  destruct (startswith (strip raw_line) (lit "==")
            && negb (startswith (strip raw_line) (lit "===")));
    [|destruct (startswith (strip raw_line) (lit "==="));
      [discriminate|
       destruct (startswith (strip raw_line) (lit ";"));
       [discriminate|
        destruct (startswith (strip raw_line) (lit "*")); discriminate]]].
  intros [= <-] H. apply In_strip_by in H.
  apply In_replace_from in H as [H|H].
  - left. apply In_strip_by in H. exact (In_strip_by _ _ _ H).
  - right. simpl in H. destruct H as [H|[]]. now symmetry.
Qed.

Lemma In_fold_add_key k l : forall ks,
  In k (fold_left add_key l ks) -> In k ks \/ In k l.
Proof.
  induction l as [|x l IH]; simpl; intros ks H; [now left|].
  destruct (IH _ H) as [Hk|Hk]; [|now right; right].
  unfold add_key in Hk. destruct (existsb (str_eqb x) ks); [now left|].
  apply in_app_iff in Hk as [Hk|[<-|[]]]; auto.
Qed.

Lemma In_phase_texts k lines :
  In k (phase_texts lines) ->
  exists l, In l lines /\ classify l = PhaseHeading k.
Proof.
  induction lines as [|l lines IH]; simpl; [intros []|].
  rewrite in_app_iff. intros [H|H].
  - exists l. split; [now left|].
    destruct (classify l); simpl in H; try contradiction.
    destruct H as [<-|[]]. reflexivity.
  - destruct (IH H) as (l' & Hin & Hc). exists l'. split; [now right | exact Hc].
Qed.

Lemma phase_key_chars text idx p c :
  parse_guide text = Return idx -> In p (keys idx) -> In c p ->
  In c text \/ c = 32.
Proof.
  unfold parse_guide, parse_lines.
  destruct (run initial (splitlines text)) as [st|e] eqn:E; simpl;
    [|discriminate].
  intros [= <-] Hp Hc. rewrite (run_keys _ _ _ E) in Hp. simpl in Hp.
  apply In_fold_add_key in Hp as [[]|Hp].
  apply In_phase_texts in Hp as (l & Hl & Hk).
  destruct (classify_phase_chars _ _ _ Hk Hc) as [H|H]; [left | now right].
  destruct (In_splitlines_from (length text) text [] l c (le_n _) Hl H)
    as [[]|H']. exact H'.
Qed.

(** X21. Every character of a phase name of the parsed index occurs in the
    page, except that it may be a space (the one put for [&nbsp;]). *)
Theorem phase_names_come_from_the_page text idx p c :
  parse_guide text = Return idx -> In p (keys idx) -> In c p ->
  In c text \/ c = 32.
Proof. apply phase_key_chars. Qed.

Lemma phase_names_come_from_the_page_witness :
  In 65 (lit "== Phase&nbsp;A ==") \/ 65 = 32.
Proof.
  apply (phase_names_come_from_the_page (lit "== Phase&nbsp;A ==")
           [(lit "Phase A", [])] (lit "Phase A") 65).
  - reflexivity.
  - now left.
  - vm_compute. tauto.
Defined.

(** X22. A guild without a stored phase is looked up under the default
    name, whose hyphen is U+2011: whenever the page the guide was parsed
    from does not contain that character, [/setup] (the class being known)
    answers that the phase data is missing. *)
Theorem default_phase_needs_its_hyphen
    unicode_lower wiki guild_id roles terraria_class now utcnow s w
    class_name text guide :
  get_guild_phase s guild_id = default_phase ->
  match truthy terraria_class with
  | Some c => Some c
  | None => find_member_class unicode_lower roles
  end = Some class_name ->
  fst (get_guide_data wiki now w) = Return guide ->
  parse_guide text = Return guide ->
  ~ In 0x2011 text ->
  fst (setup_cmd unicode_lower wiki guild_id roles terraria_class
                 now utcnow s w)
  = Return (Message
              (lit "Phase data missing. Ask an admin to `/phase set` again.")
              true).
Proof.
  intros Hdef Hclass Hguide Hparse Hno.
  assert (Hget : get guide default_phase = None).
  { apply get_None_keys. intros Hin.
    destruct (phase_key_chars text guide default_phase 0x2011 Hparse Hin)
      as [H|H]; [|contradiction|discriminate].
    vm_compute. tauto. }
  unfold setup_cmd. rewrite Hclass, Hdef.
  destruct (get_guide_data wiki now w) as [g w1]. simpl in Hguide. subst g.
  now rewrite Hget.
Qed.

Lemma default_phase_needs_its_hyphen_witness :
  fst (setup_cmd (fun s => s)
         (wiki_serving (lit "== Pre-Mech Bosses ==" ++ nl ++ lit "=== Ranged ==="))
         7 [lit "Ranger"] None (inject_Z 100) (inject_Z 5)
         (Settings [] None) startup)
  = Return (Message
              (lit "Phase data missing. Ask an admin to `/phase set` again.")
              true).
Proof.
  apply (default_phase_needs_its_hyphen (fun s => s)
           (wiki_serving (lit "== Pre-Mech Bosses ==" ++ nl ++ lit "=== Ranged ==="))
           7 [lit "Ranger"] None (inject_Z 100) (inject_Z 5)
           (Settings [] None) startup (lit "Ranged")
           (lit "== Pre-Mech Bosses ==" ++ nl ++ lit "=== Ranged ===")
           [(lit "Pre-Mech Bosses", [(lit "Ranged", [])])]);
    try reflexivity.
  vm_compute. intuition discriminate.
Defined.

(** ** Where the items come from *)

Section AllItems.

Variable P : str -> Prop.

Lemma all_items_get (r : Index) p classes :
  all_items P r -> get r p = Some classes ->
  Forall (fun cc : str * Categories =>
            Forall (fun kc : str * Items => Forall P (snd kc)) (snd cc)) classes.
Proof.
  intros H Hg. unfold all_items in H. rewrite Forall_forall in H.
  exact (H _ (get_In _ _ _ Hg)).
Qed.

Lemma all_items_register_class r p c r' :
  all_items P r -> register_class r p c = Return r' -> all_items P r'.
Proof.
  intros Hr. unfold register_class, getitem.
  destruct (get r p) as [classes|] eqn:Hg; simpl; [|discriminate].
  intros [= <-]. apply Forall_set_item; [exact Hr|]. simpl.
  apply Forall_setdefault; [exact (all_items_get _ _ _ Hr Hg) | constructor].
Qed.

Lemma all_items_register_category r p c k r' :
  all_items P r -> register_category r p c k = Return r' -> all_items P r'.
Proof.
  intros Hr. unfold register_category, getitem.
  destruct (get r p) as [classes|] eqn:Hg; simpl; [|discriminate].
  destruct (get classes c) as [cats|] eqn:Hg'; simpl; [|discriminate].
  intros [= <-]. pose proof (all_items_get _ _ _ Hr Hg) as Hcl.
  apply Forall_set_item; [exact Hr|]. simpl.
  apply Forall_set_item; [exact Hcl|]. simpl.
  apply Forall_setdefault; [|constructor].
  rewrite Forall_forall in Hcl. exact (Hcl _ (get_In _ _ _ Hg')).
Qed.

Lemma all_items_append_item r p c k name r' :
  P name -> all_items P r ->
  append_item r p c k name = Return r' -> all_items P r'.
Proof.
  intros Hn Hr. unfold append_item, getitem.
  destruct (get r p) as [classes|] eqn:Hg; simpl; [|discriminate].
  destruct (get classes c) as [cats|] eqn:Hg'; simpl; [|discriminate].
  destruct (get cats k) as [items|] eqn:Hg''; simpl; [|discriminate].
  intros [= <-]. pose proof (all_items_get _ _ _ Hr Hg) as Hcl.
  assert (Hcats : Forall (fun kc : str * Items => Forall P (snd kc)) cats).
  { rewrite Forall_forall in Hcl. exact (Hcl _ (get_In _ _ _ Hg')). }
  apply Forall_set_item; [exact Hr|]. simpl.
  apply Forall_set_item; [exact Hcl|]. simpl.
  apply Forall_set_item; [exact Hcats|]. simpl.
  apply Forall_app. split; [|now constructor].
  rewrite Forall_forall in Hcats. exact (Hcats _ (get_In _ _ _ Hg'')).
Qed.

Lemma all_items_loop_body st raw_line st' :
  (forall name,
     is_bullet raw_line = true ->
     truthy (_extract_item_name (strip raw_line)) = Some name -> P name) ->
  all_items P (result st) ->
  loop_body st raw_line = Return st' -> all_items P (result st').
Proof.
  intros HP Hr. rewrite loop_body_classify.
  destruct (is_bullet raw_line) eqn:Hb.
  - rewrite (classify_bullet _ Hb). simpl. unfold on_bullet.
    destruct (truthy (phase st)) as [p|];
      [destruct (truthy (terraria_class st)) as [c|];
       [destruct (truthy (category st)) as [k|];
        [destruct (truthy (_extract_item_name (strip raw_line)))
           as [name|] eqn:En|]|]|];
      try (now intros [= <-]).
    destruct (append_item (result st) p c k name) as [r|] eqn:E; simpl;
      [|discriminate].
    intros [= <-]. simpl. eapply all_items_append_item; eauto.
  - assert (Hk : forall line, classify raw_line <> Bullet line).
    { intros line Hc. unfold is_bullet in Hb. unfold classify in Hc.
      destruct (startswith (strip raw_line) (lit "==")
                && negb (startswith (strip raw_line) (lit "===")));
        [discriminate|].
      destruct (startswith (strip raw_line) (lit "===")); [discriminate|].
      destruct (startswith (strip raw_line) (lit ";")); [discriminate|].
      rewrite Hb in Hc. discriminate. }
    destruct (classify raw_line) as [text|text|text|line|]; simpl.
    + intros [= <-]. simpl. apply Forall_setdefault; [exact Hr | constructor].
    + unfold on_class_heading.
      destruct (truthy (phase st)) as [p|].
      * destruct (register_class (result st) p text) as [r|] eqn:E; simpl;
          [|discriminate].
        intros [= <-]. simpl. eapply all_items_register_class; eauto.
      * simpl. now intros [= <-].
    + unfold on_category_marker.
      destruct (truthy (phase st)) as [p|];
        [destruct (truthy (terraria_class st)) as [c|]|];
        try (simpl; now intros [= <-]).
      destruct (register_category (result st) p c text) as [r|] eqn:E; simpl;
        [|discriminate].
      intros [= <-]. simpl. eapply all_items_register_category; eauto.
    + now elim (Hk line).
    + now intros [= <-].
Qed.

Lemma all_items_run lines : forall st st',
  (forall raw_line name,
     In raw_line lines -> is_bullet raw_line = true ->
     truthy (_extract_item_name (strip raw_line)) = Some name -> P name) ->
  all_items P (result st) ->
  run st lines = Return st' -> all_items P (result st').
Proof.
  induction lines as [|l lines IH]; simpl; intros st st' HP Hr.
  - now intros [= <-].
  - destruct (loop_body st l) as [st1|] eqn:E; simpl; [|discriminate].
    apply IH.
    + intros raw_line name Hin. apply HP. now right.
    + eapply all_items_loop_body; [|exact Hr|exact E].
      intros name. apply HP. now left.
Qed.

End AllItems.

(** X23. No item comes from nowhere: every item name of the parsed index
    is the non-empty name that [_extract_item_name] gives on some bullet
    line of the page. *)
Theorem items_come_from_bullet_lines (wikitext : str) :
  exists idx,
    parse_guide wikitext = Return idx /\
    all_items (read_from (splitlines wikitext)) idx.
Proof.
  unfold parse_guide, parse_lines.
  destruct (run_inv (splitlines wikitext) _ inv_initial) as (st & E & _).
  rewrite E. simpl. exists (result st). split; [reflexivity|].
  eapply all_items_run; [| |exact E].
  - intros raw_line name Hin Hb Hn. now exists raw_line.
  - constructor.
Qed.
